(** * Event sourcing: the event record, the in-memory store, the read paths of
    the bbolt, esdb and sql backends, and the snapshot handler.

    The Go sources are embedded as executable Rocq functions.  Go slices are
    lists, [map[string][]Event] is a [gmap string (list Event)], [uint64]
    versions are [N], and a Go function returning [(value, error)] returns an
    [outcome], which also records a run-time panic. *)

From Stdlib Require Import NArith ZArith Lia Ascii.
From stdpp Require Import base option list sorting gmap strings.

Set Default Proof Using "Type".

(** ** Errors, results and panics *)

(** Error codes of the EventStoreDB client ([esdb.ErrorCode]). *)
Inductive ErrorCode :=
| ErrorCodeUnknown
| ErrorCodeResourceNotFound
| ErrorCodeOther (n : nat).

(** Go [error] values.  The package-level sentinels ([errors.New] evaluated
    once) are constructors of their own; [errorString] is an error made on the
    spot by [errors.New]; [esdb_Error] is the client's [*esdb.Error];
    [errorf format err] is [errors.New(fmt.Sprintf(format, err))], a new error
    whose text is [format] with [err] printed into it. *)
Inductive error :=
| ErrNoEvents
| ErrNoMoreEvents
| ErrEmptyID
| ErrUnsavedEvents
| ErrMixedAggregate
| ErrNonContiguousVersion
| ErrConcurrencyConflict
| io_EOF
| esdb_Error (code : ErrorCode)
| errorString (msg : string)
| errorf (format : string) (err : error).

(** What a Go call does: it returns a value, returns a non-nil error, or
    panics. *)
Inductive outcome (A : Type) :=
| Return (a : A)
| Fail (e : error)
| Panic (msg : string).
Arguments Return {A} a.
Arguments Fail {A} e.
Arguments Panic {A} msg.

Definition obind {A B} (m : outcome A) (k : A → outcome B) : outcome B :=
  match m with
  | Return a => k a
  | Fail e => Fail e
  | Panic msg => Panic msg
  end.

Notation "'let*' x ':=' m 'in' k" := (obind m (fun x => k))
  (at level 10, x name, m at level 100, k at level 200, only parsing).

(** ** Run-time types, as far as [reflect] is used *)

Module reflect.

(** Kinds without an element type. *)
Inductive basic_kind :=
| Bool | Int | Uint | Float | Complex | String | Struct | Func | Interface
| UnsafePointer.

(** Kinds for which [Type.Elem] is defined. *)
Inductive elem_kind := Array | Chan | Map | Pointer | Slice.

(** A [reflect.Type]: its name (empty for an unnamed type such as [*Born])
    and, for the five element kinds, its element type. *)
Inductive Type_ :=
| Basic (name : string) (k : basic_kind)
| Composite (name : string) (k : elem_kind) (elem : Type_).

Definition Name (t : Type_) : string :=
  match t with
  | Basic name _ => name
  | Composite name _ _ => name
  end.

(** [Type.Elem] panics if the type's kind is not Array, Chan, Map, Pointer
    or Slice. *)
Definition Elem (t : Type_) : outcome Type_ :=
  match t with
  | Basic name _ => Panic ("reflect: Elem of invalid type " +:+ name)
  | Composite _ _ elem => Return elem
  end.

(** The pointer type [*name] to a defined struct type. *)
Definition PtrTo (name : string) : Type_ :=
  Composite "" Pointer (Basic name Struct).

End reflect.

(** [reflect.TypeOf (any v)] for the values of a Go type: [None] is the nil
    [reflect.Type], which is what a nil interface value gives. *)
Class GoValue (T : Type) := TypeOf : T → option reflect.Type_.

(** ** Package eventsourcing *)

Module eventsourcing.

(** [type Version uint64] *)
Definition Version := N.

(** [time.Time], as an instant on an integer time line; the zero value is 0. *)
Definition Time := Z.

(** The dynamic values kept in event metadata ([interface{}]). *)
Inductive any :=
| any_nil
| any_string (s : string)
| any_int (z : Z)
| any_bool (b : bool).

(** [map[string]interface{}]; [None] is the nil map. *)
Definition MetadataMap := option (gmap string any).

Record Event (T : Type) := mkEvent {
  AggregateID : string;
  Version_ : Version;
  GlobalVersion : Version;
  AggregateType : string;
  Timestamp : Time;
  Data : T;
  Metadata : MetadataMap;
}.
Arguments mkEvent {T}.
Arguments AggregateID {T}.
Arguments Version_ {T}.
Arguments GlobalVersion {T}.
Arguments AggregateType {T}.
Arguments Timestamp {T}.
Arguments Data {T}.
Arguments Metadata {T}.

Definition set_GlobalVersion {T} (e : Event T) (v : Version) : Event T :=
  mkEvent (AggregateID e) (Version_ e) v (AggregateType e) (Timestamp e)
          (Data e) (Metadata e).

(** [func (e Event[T]) Reason() string] *)
Definition Reason {T} `{GoValue T} (e : Event T) : outcome string :=
  match TypeOf (Data e) with
  | None => Return ""
  | Some t => let* t' := reflect.Elem t in Return (reflect.Name t')
  end.

(** [[]byte] *)
Definition bytes := list Byte.byte.

(** The part of [Serializer[T]] the event stores use.  The Go serializer has
    one [Marshal(v interface{})] and one [Unmarshal(b, v interface{})]; they
    are given here at each argument type they are called with.
    [Unmarshal_Data b d] decodes [b] into the fresh payload [d] that the
    registered factory made, [Unmarshal_Metadata b] decodes into a nil map.
    [Type_ typ reason] is [Type(typ, reason)]: [None] when found is false. *)
Record Serializer (T : Type) := mkSerializer {
  Marshal_Data : T → outcome bytes;
  Marshal_Metadata : gmap string any → outcome bytes;
  Unmarshal_Data : bytes → T → outcome T;
  Unmarshal_Metadata : bytes → outcome MetadataMap;
  Type_ : string → string → option (unit → T);
}.
Arguments mkSerializer {T}.
Arguments Marshal_Data {T}.
Arguments Marshal_Metadata {T}.
Arguments Unmarshal_Data {T}.
Arguments Unmarshal_Metadata {T}.
Arguments Type_ {T}.

(** *** Aggregate roots *)

(** Modelled from the spec: [AggregateRoot[T]], whose declaration is not among
    the sources.  §3: identity (a string, empty until set), the current
    Version, the current GlobalVersion and the ordered buffer of unsaved
    events.  §4.1: [UnsavedEvents] returns whether the buffer is non-empty. *)
Record AggregateRoot (T : Type) := mkAggregateRoot {
  aggregateID : string;
  aggregateVersion : Version;
  aggregateGlobalVersion : Version;
  aggregateEvents : list (Event T);
}.
Arguments mkAggregateRoot {T}.
Arguments aggregateID {T}.
Arguments aggregateVersion {T}.
Arguments aggregateGlobalVersion {T}.
Arguments aggregateEvents {T}.

(** Modelled from the spec: [AggregateRoot.ID], not among the sources.  §3:
    the identity of the aggregate, a string that is empty until set. *)
Definition ID {T} (root : AggregateRoot T) : string := aggregateID root.

(** Modelled from the spec: [AggregateRoot.UnsavedEvents], not among the
    sources.  §4.1: returns whether the buffer of unsaved events is
    non-empty. *)
Definition UnsavedEvents {T} (root : AggregateRoot T) : bool :=
  (0 <? length (aggregateEvents root))%nat.

(** *** Snapshots *)

Record Snapshot := mkSnapshot {
  Snapshot_ID : string;
  Snapshot_Type : string;
  Snapshot_State : bytes;
  Snapshot_Version : Version;
  Snapshot_GlobalVersion : Version;
}.

(** [SnapshotStore]: the store is an external collaborator; [store_Save] is
    the error, if any, that its [Save] answers with. *)
Record SnapshotStore := mkSnapshotStore {
  store_Save : Snapshot → option error;
}.

Section Snapshots.
Context {T St : Type}.

(** An aggregate as [SnapshotHandler.Save] sees it: its dynamic type
    ([reflect.TypeOf]), the root that [Root()] points to, and its fields. *)
Record Aggregate := mkAggregate {
  dynType : reflect.Type_;
  Root : AggregateRoot T;
  fields : St;
}.

(** [MarshalSnapshotFunc] *)
Definition MarshalSnapshotFunc := St → outcome bytes.

(** The value handed to [Save(i interface{})]: it implements
    [SnapshotAggregate[T]] (and then carries its [Marshal] hook), or only
    [Aggregate[T]], or neither. *)
Inductive iface :=
| isSnapshotAggregate (sa : Aggregate)
                      (Marshal : MarshalSnapshotFunc → outcome bytes)
| isAggregate (a : Aggregate)
| notAggregate.

(** The handler's serializer is used at the aggregate's own type only:
    [serializer_Marshal] is [s.serializer.Marshal]. *)
Record SnapshotHandler := mkSnapshotHandler {
  snapshotStore : SnapshotStore;
  serializer_Marshal : MarshalSnapshotFunc;
}.

(** The root of the value handed to [Save], when it is an aggregate. *)
Definition rootOf (i : iface) : option (AggregateRoot T) :=
  match i with
  | isSnapshotAggregate sa _ => Some (Root sa)
  | isAggregate a => Some (Root a)
  | notAggregate => None
  end.

(** [validate] makes sure the aggregate is valid to be saved. *)
Definition validate (root : AggregateRoot T) : option error :=
  if String.eqb (ID root) "" then Some ErrEmptyID
  else if UnsavedEvents root then Some ErrUnsavedEvents
  else None.

(** The last steps of both save paths: build the snapshot and hand it to the
    store.  The second component lists the snapshots given to the store's
    [Save], in call order. *)
Definition storeSnapshot (s : SnapshotHandler) (root : AggregateRoot T)
    (typ : string) (b : bytes) : outcome unit * list Snapshot :=
  let snap := {| Snapshot_ID := ID root; Snapshot_Type := typ;
                 Snapshot_Version := aggregateVersion root;
                 Snapshot_GlobalVersion := aggregateGlobalVersion root;
                 Snapshot_State := b |} in
  (match store_Save (snapshotStore s) snap with
   | Some err => Fail err
   | None => Return ()
   end, [snap]).

(** Lift a step that does not reach the store. *)
Definition noStore {A} (m : outcome A)
    (k : A → outcome unit * list Snapshot) : outcome unit * list Snapshot :=
  match m with
  | Return a => k a
  | Fail err => (Fail err, [])
  | Panic msg => (Panic msg, [])
  end.

Definition saveSnapshotAggregate (s : SnapshotHandler) (sa : Aggregate)
    (Marshal : MarshalSnapshotFunc → outcome bytes)
    : outcome unit * list Snapshot :=
  let root := Root sa in
  match validate root with
  | Some err => (Fail err, [])
  | None =>
      noStore (reflect.Elem (dynType sa)) (fun t =>
      let typ := reflect.Name t in
      noStore (Marshal (serializer_Marshal s)) (fun b =>
      storeSnapshot s root typ b))
  end.

Definition saveAggregate (s : SnapshotHandler) (sa : Aggregate)
    : outcome unit * list Snapshot :=
  let root := Root sa in
  match validate root with
  | Some err => (Fail err, [])
  | None =>
      noStore (reflect.Elem (dynType sa)) (fun t =>
      let typ := reflect.Name t in
      noStore (serializer_Marshal s (fields sa)) (fun b =>
      storeSnapshot s root typ b))
  end.

(** [func (s *SnapshotHandler[T]) Save(i interface{}) error] *)
Definition SnapshotHandler_Save (s : SnapshotHandler) (i : iface)
    : outcome unit * list Snapshot :=
  match i with
  | isSnapshotAggregate sa Marshal => saveSnapshotAggregate s sa Marshal
  | isAggregate a => saveAggregate s a
  | notAggregate => (Fail (errorString "not an aggregate"), [])
  end.

(** *** Notions used to state the handler's properties *)

(** The aggregate in the value handed to [Save], if it is one. *)
Definition aggregateOf (i : iface) : option Aggregate :=
  match i with
  | isSnapshotAggregate sa _ => Some sa
  | isAggregate a => Some a
  | notAggregate => None
  end.

(** The state that [Save] captures: made by the aggregate's own [Marshal]
    hook when it has one, and else by the serializer from its fields. *)
Definition marshalState (s : SnapshotHandler) (i : iface) : outcome bytes :=
  match i with
  | isSnapshotAggregate _ Marshal => Marshal (serializer_Marshal s)
  | isAggregate a => serializer_Marshal s (fields a)
  | notAggregate => Fail (errorString "not an aggregate")
  end.

(** The snapshot of [root] under the type name [typ] with the state [b]. *)
Definition snapshotOf (root : AggregateRoot T) (typ : string) (b : bytes)
    : Snapshot :=
  {| Snapshot_ID := ID root; Snapshot_Type := typ; Snapshot_State := b;
     Snapshot_Version := aggregateVersion root;
     Snapshot_GlobalVersion := aggregateGlobalVersion root |}.

End Snapshots.
Arguments Aggregate : clear implicits.
Arguments iface : clear implicits.
Arguments SnapshotHandler : clear implicits.

End eventsourcing.

(** ** Package eventstore *)

Module eventstore.
Import eventsourcing.

Section Validate.
Context {T : Type}.

(** Every event of the batch belongs to the aggregate [aggregateID] of type
    [aggregateType]. *)
Definition sameAggregate (aggregateID aggregateType : string)
    (events : list (Event T)) : bool :=
  forallb (fun event => String.eqb (AggregateID event) aggregateID
                        && String.eqb (AggregateType event) aggregateType)
          events.

(** The versions continue [version] without a gap: [version + 1],
    [version + 2], ... *)
Fixpoint contiguous (version : Version) (events : list (Event T)) : bool :=
  match events with
  | [] => true
  | event :: rest =>
      (Version_ event =? version + 1)%N && contiguous (Version_ event) rest
  end.

(** Modelled from the spec: [eventstore.ValidateEvents], which is not among
    the sources.  §4.2: all events of a batch share one AggregateID and one
    AggregateType, or the batch fails with MixedAggregate; the Versions are
    contiguous ascending integers with no gaps; the first Version equals the
    current persisted Version plus one, or the batch fails with
    ConcurrencyConflict.  The batch is never empty when the stores call it. *)
Definition ValidateEvents (aggregateID : string) (currentVersion : Version)
    (events : list (Event T)) : option error :=
  match events with
  | [] => None
  | first :: rest =>
      if negb (sameAggregate aggregateID (AggregateType first) events)
      then Some ErrMixedAggregate
      else if negb (contiguous (Version_ first) rest)
      then Some ErrNonContiguousVersion
      else if negb (Version_ first =? currentVersion + 1)%N
      then Some ErrConcurrencyConflict
      else None
  end.

(** Modelled from the spec: [eventstore.ValidateEventsNoVersionCheck], which
    is not among the sources: the checks of §4.2 on the batch alone, without
    the comparison to the current persisted Version. *)
Definition ValidateEventsNoVersionCheck (aggregateID : string)
    (events : list (Event T)) : option error :=
  match events with
  | [] => None
  | first :: rest =>
      if negb (sameAggregate aggregateID (AggregateType first) events)
      then Some ErrMixedAggregate
      else if negb (contiguous (Version_ first) rest)
      then Some ErrNonContiguousVersion
      else None
  end.

End Validate.

End eventstore.

(** ** Package memory: the in-memory event store *)

Module memory.
Import eventsourcing.

Section Memory.
Context {T : Type}.

(** [Memory[T]]; the mutex guards every method and is not modelled: each
    method below is one critical section. *)
Record Memory := mkMemory {
  aggregateEvents : gmap string (list (Event T));
  eventsInOrder : list (Event T);
}.

(** The iterator over a slice of events.  [position] is a Go [int] that
    starts at 0 and is only ever incremented. *)
Record iterator := mkIterator {
  events : list (Event T);
  position : nat;
}.

Definition Next (i : iterator) : outcome (Event T) * iterator :=
  if (length (events i) <=? position i)%nat
  then (Fail ErrNoMoreEvents, i)
  else match events i !! position i with
       | Some event => (Return event, mkIterator (events i) (S (position i)))
       | None => (Panic "index out of range", i)
       end.

Definition Close (i : iterator) : iterator := mkIterator [] 0.

Definition Create : Memory := mkMemory ∅ [].

(** [aggregateKey] generates the key to store events against. *)
Definition aggregateKey (aggregateType aggregateID : string) : string :=
  aggregateType +:+ "_" +:+ aggregateID.

(** [e.aggregateEvents[key]]: a missing key gives the nil slice. *)
Definition bucket (e : Memory) (key : string) : list (Event T) :=
  default [] (aggregateEvents e !! key).

(** The loop of [Save]: every event gets the global version it has once
    appended to [eventsInOrder], is appended to the bucket and to the global
    order, and the caller's slice is updated.  Returns the caller's slice, the
    bucket and the global order.  A slice is shorter than 2^63, so the
    conversion of its length to [Version] does not wrap. *)
Fixpoint save_loop (events evBucket eventsInOrder : list (Event T))
    : list (Event T) * list (Event T) * list (Event T) :=
  match events with
  | [] => ([], evBucket, eventsInOrder)
  | event :: rest =>
      let event :=
        set_GlobalVersion event (N.of_nat (length eventsInOrder) + 1)%N in
      let '(rest', evBucket', eventsInOrder') :=
        save_loop rest (evBucket ++ [event]) (eventsInOrder ++ [event]) in
      (event :: rest', evBucket', eventsInOrder')
  end.

(** [Save]: the error (if any), the store afterwards, and the caller's slice
    afterwards. *)
Definition Save (e : Memory) (events : list (Event T))
    : option error * Memory * list (Event T) :=
  match events with
  | [] => (None, e, events)
  | first :: _ =>
      let aggregateType := AggregateType first in
      let aggregateID := AggregateID first in
      let bucketName := aggregateKey aggregateType aggregateID in
      let evBucket := bucket e bucketName in
      let currentVersion :=
        match last evBucket with
        | Some lastEvent => Version_ lastEvent
        | None => 0%N
        end in
      match eventstore.ValidateEvents aggregateID currentVersion events with
      | Some err => (Some err, e, events)
      | None =>
          let '(events', evBucket', eventsInOrder') :=
            save_loop events evBucket (eventsInOrder e) in
          (None,
           mkMemory (<[bucketName := evBucket']> (aggregateEvents e))
                    eventsInOrder',
           events')
      end
  end.

(** The loop of [Get]. *)
Definition get_loop (afterVersion : Version) (stored : list (Event T))
    : list (Event T) :=
  fold_left (fun events e =>
               if (afterVersion <? Version_ e)%N then events ++ [e]
               else events)
            stored [].

Definition Get (e : Memory) (id aggregateType : string)
    (afterVersion : Version) : outcome iterator :=
  let events := get_loop afterVersion (bucket e (aggregateKey aggregateType id)) in
  if (length events =? 0)%nat then Fail ErrNoEvents
  else Return (mkIterator events 0).

(** The store after a sequence of [Save] calls on a new store, whatever each
    call answers. *)
Definition saves (batches : list (list (Event T))) : Memory :=
  fold_left (fun e batch => (Save e batch).1.2) batches Create.

(** [n] calls of [Next]: the results in call order, and the iterator left. *)
Fixpoint nexts (n : nat) (i : iterator)
    : list (outcome (Event T)) * iterator :=
  match n with
  | O => ([], i)
  | S n' =>
      let '(r, i') := Next i in
      let '(rs, i'') := nexts n' i' in
      (r :: rs, i'')
  end.

(** [count--] on a [uint64]: it wraps around at 0. *)
Definition uint64_dec (count : N) : N := ((count + (2 ^ 64 - 1)) mod 2 ^ 64)%N.

(** The loop of [GlobalEvents] over the events of the global order that are
    left, with the events gathered so far. *)
Fixpoint globalEvents_loop (start count : N) (inOrder events : list (Event T))
    : list (Event T) :=
  match inOrder with
  | [] => events
  | e :: rest =>
      if (start <=? GlobalVersion e)%N then
        let events := events ++ [e] in
        let count := uint64_dec count in
        if (count =? 0)%N then events
        else globalEvents_loop start count rest events
      else globalEvents_loop start count rest events
  end.

(** [GlobalEvents] returns [count] events in global order from the [start]
    position; [start] and [count] are [uint64].  Its error is always nil. *)
Definition GlobalEvents (e : Memory) (start count : N) : list (Event T) :=
  globalEvents_loop start count (eventsInOrder e) [].

(** *** Notions used to state the store's properties *)

(** The events of [events] stamped with the global versions [start + 1],
    [start + 2], ... *)
Definition stamped (start : nat) (events : list (Event T)) : list (Event T) :=
  imap (fun k event =>
          set_GlobalVersion event (N.of_nat (start + k) + 1)%N) events.

(** [l] is numbered by [f]: its element at index [k] has number [k + 1]. *)
Definition numbered (f : Event T → N) (l : list (Event T)) : Prop :=
  ∀ k event, l !! k = Some event → f event = (N.of_nat k + 1)%N.

(** [l] is in strictly ascending order of Version. *)
Definition ascending (l : list (Event T)) : Prop :=
  StronglySorted (fun a b => (Version_ a < Version_ b)%N) l.

(** The key under which the store files an event. *)
Definition keyOf (event : Event T) : string :=
  aggregateKey (AggregateType event) (AggregateID event).

(** The events of the log that belong to the aggregate [(id, typ)], in commit
    order. *)
Definition eventsOf (e : Memory) (id typ : string) : list (Event T) :=
  filter (fun event => AggregateID event = id ∧ AggregateType event = typ)
         (eventsInOrder e).

(** The store is consistent: the log carries the global versions 1, 2, ...;
    each bucket holds the events of the log filed under its key, in commit
    order; each bucket carries the versions 1, 2, ... *)
Definition consistent (e : Memory) : Prop :=
  numbered GlobalVersion (eventsInOrder e)
  ∧ (∀ key, bucket e key
            = filter (fun event => keyOf event = key) (eventsInOrder e))
  ∧ (∀ key, numbered Version_ (bucket e key)).

(** How often the end-of-stream sentinel occurs among results. *)
Definition is_sentinel (r : outcome (Event T)) : bool :=
  match r with
  | Fail ErrNoMoreEvents => true
  | _ => false
  end.

Definition sentinels (rs : list (outcome (Event T))) : nat :=
  length (filter (fun r => is_sentinel r = true) rs).

End Memory.
Arguments Memory : clear implicits.
Arguments iterator : clear implicits.

End memory.

(** ** Package bbolt: the iterator of the embedded key-value store *)

Module bbolt.
Import eventsourcing.

(** The stored form of an event.  The declaration of [boltEvent] is not among
    the sources; these are the fields the iterator reads. *)
Record boltEvent := mkBoltEvent {
  bolt_AggregateID : string;
  bolt_Version : N;
  bolt_GlobalVersion : N;
  bolt_Reason : string;
  bolt_AggregateType : string;
  bolt_Timestamp : Time;
  bolt_Data : bytes;
  bolt_Metadata : MetadataMap;
}.

Section Iterator.
Context {T : Type}.

(** [tx] holds the buckets the read transaction sees, each as its key-value
    pairs in key order.  Keys are the big-endian 8-byte encodings [itob] of
    64-bit sequence numbers, so their byte order is the numeric order and a
    key is modelled as the number it encodes.  [cursor] is [None] for the nil
    cursor; otherwise it holds the pairs after the cursor's position.
    [Unmarshal_boltEvent] is [serializer.Unmarshal] called on a [*boltEvent]. *)
Record iterator := mkIterator {
  tx : gmap string (list (N * bytes));
  bucketName : string;
  firstEventIndex : N;
  cursor : option (list (N * bytes));
  serializer : Serializer T;
  Unmarshal_boltEvent : bytes → outcome boltEvent;
}.

Definition set_cursor (i : iterator) (c : list (N * bytes)) : iterator :=
  mkIterator (tx i) (bucketName i) (firstEventIndex i) (Some c)
             (serializer i) (Unmarshal_boltEvent i).

(** [Cursor.Seek]: the pairs from the first key not below [k] on. *)
Fixpoint Seek (k : N) (pairs : list (N * bytes)) : list (N * bytes) :=
  match pairs with
  | [] => []
  | (k', obj) :: rest => if (k' <? k)%N then Seek k rest else pairs
  end.

(** The body of [Next] from the pair the cursor has moved to: [pairs] starts
    with that pair (empty: the cursor returned a nil key).  The recursive call
    of [Next] on an unregistered event takes [cursor.Next()], the head of the
    rest.  Returns the pairs left after the cursor. *)
Fixpoint next_from (ser : Serializer T)
    (unmarshal : bytes → outcome boltEvent) (pairs : list (N * bytes))
    : outcome (Event T) * list (N * bytes) :=
  match pairs with
  | [] => (Fail ErrNoMoreEvents, [])
  | (k, obj) :: rest =>
      match unmarshal obj with
      | Panic msg => (Panic msg, rest)
      | Fail err => (Fail (errorf "could not deserialize event, %v" err), rest)
      | Return bEvent =>
          match Type_ ser (bolt_AggregateType bEvent) (bolt_Reason bEvent) with
          | None => next_from ser unmarshal rest
          | Some f =>
              let eventData := f () in
              match Unmarshal_Data ser (bolt_Data bEvent) eventData with
              | Panic msg => (Panic msg, rest)
              | Fail err =>
                  (Fail (errorf "could not deserialize event data, %v" err),
                   rest)
              | Return eventData =>
                  (Return {| AggregateID := bolt_AggregateID bEvent;
                             AggregateType := bolt_AggregateType bEvent;
                             Version_ := bolt_Version bEvent;
                             GlobalVersion := bolt_GlobalVersion bEvent;
                             Timestamp := bolt_Timestamp bEvent;
                             Metadata := bolt_Metadata bEvent;
                             Data := eventData |}, rest)
              end
          end
      end
  end.

(** [func (i *iterator[T]) Next() (eventsourcing.Event[T], error)] *)
Definition Next (i : iterator) : outcome (Event T) * iterator :=
  match cursor i with
  | None =>
      match tx i !! bucketName i with
      | None => (Fail ErrNoMoreEvents, i)
      | Some pairs =>
          let '(r, rest) :=
            next_from (serializer i) (Unmarshal_boltEvent i)
                      (Seek (firstEventIndex i) pairs) in
          (r, set_cursor i rest)
      end
  | Some pairs =>
      let '(r, rest) :=
        next_from (serializer i) (Unmarshal_boltEvent i) pairs in
      (r, set_cursor i rest)
  end.

(** [n] calls of [Next]: the results in call order, and the iterator left. *)
Fixpoint nexts (n : nat) (i : iterator)
    : list (outcome (Event T)) * iterator :=
  match n with
  | O => ([], i)
  | S n' =>
      let '(r, i') := Next i in
      let '(rs, i'') := nexts n' i' in
      (r :: rs, i'')
  end.

(** *** Notions used to state the iterator's properties *)

(** What reading one stored pair gives: nothing when the event's type and
    reason are not registered, and else the event or the error. *)
Definition read_pair (ser : Serializer T)
    (unmarshal : bytes → outcome boltEvent) (pair : N * bytes)
    : option (outcome (Event T)) :=
  match unmarshal pair.2 with
  | Panic msg => Some (Panic msg)
  | Fail err => Some (Fail (errorf "could not deserialize event, %v" err))
  | Return bEvent =>
      match Type_ ser (bolt_AggregateType bEvent) (bolt_Reason bEvent) with
      | None => None
      | Some f =>
          Some match Unmarshal_Data ser (bolt_Data bEvent) (f ()) with
               | Panic msg => Panic msg
               | Fail err =>
                   Fail (errorf "could not deserialize event data, %v" err)
               | Return eventData =>
                   Return {| AggregateID := bolt_AggregateID bEvent;
                             AggregateType := bolt_AggregateType bEvent;
                             Version_ := bolt_Version bEvent;
                             GlobalVersion := bolt_GlobalVersion bEvent;
                             Timestamp := bolt_Timestamp bEvent;
                             Metadata := bolt_Metadata bEvent;
                             Data := eventData |}
               end
      end
  end.

(** The stored pairs still ahead of the iterator: those after the cursor, or,
    before the first call, those of the bucket from [firstEventIndex] on
    (none when the transaction has no such bucket). *)
Definition ahead (i : iterator) : list (N * bytes) :=
  match cursor i with
  | Some pairs => pairs
  | None => Seek (firstEventIndex i) (default [] (tx i !! bucketName i))
  end.

(** The results still to come from the iterator: what reading each pair ahead
    gives, the unregistered ones left out. *)
Definition pending (i : iterator) : list (outcome (Event T)) :=
  omap (read_pair (serializer i) (Unmarshal_boltEvent i)) (ahead i).

End Iterator.
Arguments iterator : clear implicits.

End bbolt.

(** ** Package esdb: the EventStoreDB backend *)

Module esdb.
Import eventsourcing.

Definition streamSeparator : Ascii.ascii := "-"%char.

(** [strings.Split(s, sep)] for a one-byte separator, the only use: the
    pieces of [s] between the occurrences of [sep]; never empty. *)
Fixpoint Split (s : string) (sep : Ascii.ascii) : list string :=
  match s with
  | EmptyString => [EmptyString]
  | String c s' =>
      if Ascii.eqb c sep then EmptyString :: Split s' sep
      else match Split s' sep with
           | piece :: pieces => String c piece :: pieces
           | [] => [String c EmptyString]
           end
  end.

(** Whether [sep] occurs in [s]. *)
Fixpoint contains (s : string) (sep : Ascii.ascii) : bool :=
  match s with
  | EmptyString => false
  | String c s' => Ascii.eqb c sep || contains s' sep
  end.

(** [stream] names the stream of an aggregate. *)
Definition stream (aggregateType aggregateID : string) : string :=
  aggregateType +:+ String streamSeparator "" +:+ aggregateID.

(** The client library's types, as far as the backend uses them. *)
Inductive ContentType := ContentTypeBinary | ContentTypeJson.

Record EventData := mkEventData {
  ed_ContentType : ContentType;
  ed_EventType : string;
  ed_Data : bytes;
  ed_Metadata : option bytes;
}.

Inductive ExpectedRevision :=
| Any
| NoStream
| StreamRevision (Value : N).

Record WriteResult := mkWriteResult {
  CommitPosition : N;
  NextExpectedVersion : N;
}.

Record RecordedEvent := mkRecordedEvent {
  StreamID : string;
  EventNumber : N;
  EventType : string;
  re_Data : bytes;
  UserMetadata : option bytes;
  CreatedDate : Time;
}.

(** What the log service keeps of an appended [EventData]: its type, data and
    metadata, under the stream it was appended to, at the event number and
    with the creation date the service gives it. *)
Definition recorded (streamID : string) (number : N) (created : Time)
    (ed : EventData) : RecordedEvent :=
  {| StreamID := streamID; EventNumber := number;
     EventType := ed_EventType ed; re_Data := ed_Data ed;
     UserMetadata := ed_Metadata ed; CreatedDate := created |}.

(** [esdb.FromError] of a non-nil error: the code of an [*esdb.Error], and
    [ErrorCodeUnknown] for any other error. *)
Definition FromError_Code (err : error) : ErrorCode :=
  match err with
  | esdb_Error code => code
  | _ => ErrorCodeUnknown
  end.

Definition is_EOF (err : error) : bool :=
  match err with io_EOF => true | _ => false end.

Definition is_ResourceNotFound (code : ErrorCode) : bool :=
  match code with ErrorCodeResourceNotFound => true | _ => false end.

(** *** The log service, as far as [Save] relies on it

    The service keeps, per stream, the events appended to it.  An append under
    an expected revision is accepted when the number of the stream's last
    event is the expected one ([NoStream]: the stream has no event; [Any]:
    always).  The appended events get the event numbers that follow the
    stream's last one, from 0 on in a stream without events.  [position] is
    the commit position and [now] the creation date that the service gives to
    the next batch. *)
Record Service := mkService {
  streams : gmap string (list RecordedEvent);
  position : N;
  now : Time;
}.

Definition streamOf (sv : Service) (streamID : string) : list RecordedEvent :=
  default [] (streams sv !! streamID).

Definition accepts (revision : ExpectedRevision)
    (stored : list RecordedEvent) : bool :=
  match revision with
  | Any => true
  | NoStream => match stored with [] => true | _ => false end
  | StreamRevision v =>
      match last stored with
      | Some lastEvent => (EventNumber lastEvent =? v)%N
      | None => false
      end
  end.

Definition nextNumber (stored : list RecordedEvent) : N :=
  match last stored with
  | Some lastEvent => (EventNumber lastEvent + 1)%N
  | None => 0%N
  end.

(** The client call [AppendToStream] against the service [sv]: the write
    result, or the error of a wrong expected version. *)
Definition client (sv : Service) (streamID : string)
    (revision : ExpectedRevision) (events : list EventData)
    : outcome WriteResult :=
  if accepts revision (streamOf sv streamID)
  then Return {| CommitPosition := position sv;
                 NextExpectedVersion :=
                   (nextNumber (streamOf sv streamID)
                    + N.of_nat (length events) - 1)%N |}
  else Fail (esdb_Error (ErrorCodeOther 0)).

(** What the service records for an accepted batch [events], in order. *)
Definition records (sv : Service) (streamID : string)
    (events : list EventData) : list RecordedEvent :=
  imap (fun k ed =>
          recorded streamID (nextNumber (streamOf sv streamID) + N.of_nat k)%N
                   (now sv) ed)
       events.

(** An item of a read stream is an error, or an event that lies in a stream
    named by [stream]. *)
Definition named_by_stream (item : error + RecordedEvent) : Prop :=
  match item with
  | inl _ => True
  | inr eventESDB => ∃ typ id, StreamID eventESDB = stream typ id
  end.

Section ESDB.
Context {T : Type} `{GoValue T}.

(** The handler.  [AppendToStream] is the client call: the service's answer
    to appending a batch to a stream under the given expected revision. *)
Record ESDB := mkESDB {
  AppendToStream :
    string → ExpectedRevision → list EventData → outcome WriteResult;
  serializer : Serializer T;
  contentType : ContentType;
}.

(** The first loop of [Save]: each event's data and metadata marshalled and
    its reason taken, in this order. *)
Fixpoint toEventData (es : ESDB) (events : list (Event T))
    : outcome (list EventData) :=
  match events with
  | [] => Return []
  | event :: rest =>
      let* e := Marshal_Data (serializer es) (Data event) in
      let* m := match Metadata event with
                | Some metadata =>
                    let* m := Marshal_Metadata (serializer es) metadata in
                    Return (Some m)
                | None => Return None
                end in
      let* reason := Reason event in
      let eventData := {| ed_ContentType := contentType es;
                          ed_EventType := reason;
                          ed_Data := e; ed_Metadata := m |} in
      let* esdbEvents := toEventData es rest in
      Return (eventData :: esdbEvents)
  end.

(** The expected revision [Save] asks for.  With [version > 1] the
    subtraction does not wrap. *)
Definition expectedRevision (version : Version) : ExpectedRevision :=
  if (1 <? version)%N then StreamRevision (version - 2)%N
  else if (version =? 1)%N then NoStream
  else Any.

(** [Save]: the result, and the caller's slice afterwards. *)
Definition Save (es : ESDB) (events : list (Event T))
    : outcome unit * list (Event T) :=
  match events with
  | [] => (Return (), events)
  | first :: _ =>
      let aggregateID := AggregateID first in
      let aggregateType := AggregateType first in
      let version := Version_ first in
      let stream := stream aggregateType aggregateID in
      match eventstore.ValidateEventsNoVersionCheck aggregateID events with
      | Some err => (Fail err, events)
      | None =>
          match toEventData es events with
          | Panic msg => (Panic msg, events)
          | Fail err => (Fail err, events)
          | Return esdbEvents =>
              match AppendToStream es stream (expectedRevision version)
                                   esdbEvents with
              | Panic msg => (Panic msg, events)
              | Fail err => (Fail err, events)
              | Return wr =>
                  (Return (),
                   (fun event => set_GlobalVersion event (CommitPosition wr))
                   <$> events)
              end
          end
      end
  end.

(** The read stream: what the successive calls of [Recv] answer; once the
    list is used up, [Recv] answers [io.EOF]. *)
Definition ReadStream := list (error + RecordedEvent).

(** [func (i *iterator[T]) Next() (eventsourcing.Event[T], error)]: the result
    and the stream left.  The zero value of [GlobalVersion] is left in place:
    the position is not available from a stream read.  The Version is the
    event number plus one, added in [uint64], so that it wraps around. *)
Fixpoint Next (ser : Serializer T) (stream : ReadStream)
    : outcome (Event T) * ReadStream :=
  match stream with
  | [] => (Fail ErrNoMoreEvents, [])
  | inl err :: rest =>
      if is_EOF err then (Fail ErrNoMoreEvents, rest)
      else if is_ResourceNotFound (FromError_Code err)
      then (Fail ErrNoMoreEvents, rest)
      else (Fail err, rest)
  | inr eventESDB :: rest =>
      let stream := Split (StreamID eventESDB) streamSeparator in
      match Type_ ser (default "" (stream !! 0%nat)) (EventType eventESDB) with
      | None => Next ser rest
      | Some f =>
          let eventData := f () in
          (let* eventData :=
             Unmarshal_Data ser (re_Data eventESDB) eventData in
           let* eventMetadata :=
             match UserMetadata eventESDB with
             | Some b => Unmarshal_Metadata ser b
             | None => Return None
             end in
           match stream !! 1%nat with
           | None => Panic "index out of range [1] with length 1"
           | Some aggregateID =>
               Return {| AggregateID := aggregateID;
                         Version_ :=
                           ((EventNumber eventESDB + 1) mod 2 ^ 64)%N;
                         GlobalVersion := 0%N;
                         AggregateType := default "" (stream !! 0%nat);
                         Timestamp := CreatedDate eventESDB;
                         Data := eventData;
                         Metadata := eventMetadata |}
           end, rest)
      end
  end.

(** The serializer decodes what it encoded of [event] as [ed]: the type and
    reason are registered, and the data and the metadata of [ed] decode to
    the event's Data and Metadata. *)
Definition decodes_back (ser : Serializer T) (event : Event T)
    (ed : EventData) : Prop :=
  ∃ f, Type_ ser (AggregateType event) (ed_EventType ed) = Some f
       ∧ Unmarshal_Data ser (ed_Data ed) (f ()) = Return (Data event)
       ∧ match ed_Metadata ed with
         | Some b => Unmarshal_Metadata ser b
         | None => Return None
         end = Return (Metadata event).

(** [Open] binds the client; the content type defaults to binary. *)
Definition Open
    (client : string → ExpectedRevision → list EventData → outcome WriteResult)
    (serializer : Serializer T) (jsonSerializer : bool) : ESDB :=
  {| AppendToStream := client;
     serializer := serializer;
     contentType := if jsonSerializer then ContentTypeJson
                    else ContentTypeBinary |}.

End ESDB.
Arguments ESDB T : clear implicits.

End esdb.

(** ** Package sql: reading rows back *)

Module sql.
Import eventsourcing.

(** One row of the query, in column order: seq, id, version, reason, type,
    timestamp, data, metadata. *)
Record Row := mkRow {
  row_seq : Version;
  row_id : string;
  row_version : Version;
  row_reason : string;
  row_type : string;
  row_timestamp : string;
  row_data : string;
  row_metadata : string;
}.

(** [*sql.Rows]: what [Scan] answers for each row that [rows.Next] reaches,
    and what [rows.Err] answers once the loop is left. *)
Record Rows := mkRows {
  scans : list (error + Row);
  rows_Err : option error;
}.

Definition RFC3339 : string := "2006-01-02T15:04:05Z07:00".

Section SQL.
Context {T : Type}.
(** [time.Parse] of the standard library. *)
Variable time_Parse : string → string → outcome Time.

(** The loop of [eventsFromRows] over the rows left, with the events
    gathered so far. *)
Fixpoint rows_loop (ser : Serializer T) (rows : list (error + Row))
    (events : list (Event T)) : outcome (list (Event T)) :=
  match rows with
  | [] => Return events
  | inl err :: _ => Fail err
  | inr row :: rest =>
      let* t := time_Parse RFC3339 (row_timestamp row) in
      match Type_ ser (row_type row) (row_reason row) with
      | None => rows_loop ser rest events
      | Some f =>
          let eventData := f () in
          let* eventData :=
            Unmarshal_Data ser
              (String.list_byte_of_string (row_data row)) eventData in
          let* eventMetadata :=
            if String.eqb (row_metadata row) "" then Return None
            else Unmarshal_Metadata ser
                   (String.list_byte_of_string (row_metadata row)) in
          rows_loop ser rest
            (events ++ [{| AggregateID := row_id row;
                           Version_ := row_version row;
                           GlobalVersion := row_seq row;
                           AggregateType := row_type row;
                           Timestamp := t;
                           Data := eventData;
                           Metadata := eventMetadata |}])
      end
  end.

(** [func (s *SQL[T]) eventsFromRows(rows *sql.Rows) ([]Event[T], error)] *)
Definition eventsFromRows (ser : Serializer T) (rows : Rows)
    : outcome (list (Event T)) :=
  let* events := rows_loop ser (scans rows) [] in
  match rows_Err rows with
  | Some err => Fail err
  | None => Return events
  end.

(** *** Notions used to state the properties of [eventsFromRows] *)

(** What reading one scanned row gives: nothing when the row's type and
    reason are not registered, and else the event. *)
Definition read_row (ser : Serializer T) (row : Row)
    : outcome (option (Event T)) :=
  let* t := time_Parse RFC3339 (row_timestamp row) in
  match Type_ ser (row_type row) (row_reason row) with
  | None => Return None
  | Some f =>
      let* eventData :=
        Unmarshal_Data ser (String.list_byte_of_string (row_data row))
                       (f ()) in
      let* eventMetadata :=
        if String.eqb (row_metadata row) "" then Return None
        else Unmarshal_Metadata ser
               (String.list_byte_of_string (row_metadata row)) in
      Return (Some {| AggregateID := row_id row;
                      Version_ := row_version row;
                      GlobalVersion := row_seq row;
                      AggregateType := row_type row;
                      Timestamp := t;
                      Data := eventData;
                      Metadata := eventMetadata |})
  end.

(** The same for what [Scan] answers. *)
Definition read_scan (ser : Serializer T) (scan : error + Row)
    : outcome (option (Event T)) :=
  match scan with
  | inl err => Fail err
  | inr row => read_row ser row
  end.

End SQL.

End sql.

(** ** Concrete payloads, serializers and stores used in the examples *)

Module fixtures.
Import eventsourcing.

(** The events of the Person aggregate, as values of the interface type
    [EventType]: the nil interface, [&Born{Name}] and [&AgedOneYear{}]. *)
Inductive EventType :=
| nilEvent
| ptrBorn (Name : string)
| ptrAgedOneYear.

#[export] Instance EventType_GoValue : GoValue EventType := fun d =>
  match d with
  | nilEvent => None
  | ptrBorn _ => Some (reflect.PtrTo "Born")
  | ptrAgedOneYear => Some (reflect.PtrTo "AgedOneYear")
  end.

(** The struct type [Born] itself as the event type: [Event[Born]]. *)
Record Born := mkBorn { Name : string }.

#[export] Instance Born_GoValue : GoValue Born := fun _ =>
  Some (reflect.Basic "Born" reflect.Struct).

(** A serializer for [EventType] with Born and AgedOneYear registered for the
    aggregate Person: a Born is encoded as the bytes of its name. *)
Definition personSerializer : Serializer EventType :=
  {| Marshal_Data := fun d =>
       match d with
       | nilEvent => Return []
       | ptrBorn name => Return (String.list_byte_of_string name)
       | ptrAgedOneYear => Return []
       end;
     Marshal_Metadata := fun _ => Return [];
     Unmarshal_Data := fun b d =>
       match d with
       | nilEvent => Fail (errorString "nil target")
       | ptrBorn _ => Return (ptrBorn (String.string_of_list_byte b))
       | ptrAgedOneYear => Return ptrAgedOneYear
       end;
     Unmarshal_Metadata := fun _ => Return (Some ∅);
     Type_ := fun typ reason =>
       if String.eqb typ "Person" then
         if String.eqb reason "Born" then Some (fun _ => ptrBorn "")
         else if String.eqb reason "AgedOneYear"
         then Some (fun _ => ptrAgedOneYear)
         else None
       else None |}.

Definition event (id typ : string) (version : Version) (d : EventType)
    : Event EventType :=
  {| AggregateID := id; Version_ := version; GlobalVersion := 0%N;
     AggregateType := typ; Timestamp := 0%Z; Data := d; Metadata := None |}.

(** Alice is born and ages twice. *)
Definition alice : list (Event EventType) :=
  [event "123" "Person" 1%N (ptrBorn "Alice");
   event "123" "Person" 2%N ptrAgedOneYear;
   event "123" "Person" 3%N ptrAgedOneYear].

(** Two aggregates whose keys in the in-memory store coincide: type
    [Order_Item] with id [7], and type [Order] with id [Item_7].  Only the
    former has an event saved. *)
Definition orderItem : Event EventType :=
  event "7" "Order_Item" 1%N (ptrBorn "Bob").

Definition collided : memory.Memory EventType := memory.saves [[orderItem]].

(** The store after Alice's three events are saved, the store and the
    caller's events after that call, and the iterator over her events after
    Version 1. *)
Definition aliceStore : memory.Memory EventType := memory.saves [alice].

Definition aliceSaved : list (Event EventType) :=
  (memory.Save (memory.saves []) alice).2.

Definition aliceIterator : memory.iterator EventType :=
  memory.mkIterator (drop 1 aliceSaved) 0.

(** An aggregate root without identity that holds an unsaved event. *)
Definition anonymousRoot : AggregateRoot EventType :=
  {| aggregateID := ""; aggregateVersion := 1%N;
     aggregateGlobalVersion := 0%N;
     aggregateEvents := [event "" "Person" 1%N (ptrBorn "Alice")] |}.

(** A root with identity that holds an unsaved event. *)
Definition aliceRoot : AggregateRoot EventType :=
  {| aggregateID := "123"; aggregateVersion := 1%N;
     aggregateGlobalVersion := 0%N;
     aggregateEvents := [event "123" "Person" 1%N (ptrBorn "Alice")] |}.

(** An event whose payload is a [Born] struct, not a pointer to one. *)
Definition bornByValue : Event Born :=
  {| AggregateID := "123"; Version_ := 1%N; GlobalVersion := 0%N;
     AggregateType := "Person"; Timestamp := 0%Z;
     Data := mkBorn "Alice"; Metadata := None |}.

Definition okStore : SnapshotStore := {| store_Save := fun _ => None |}.

Definition handler : SnapshotHandler unit :=
  {| snapshotStore := okStore; serializer_Marshal := fun _ => Return [] |}.

Definition person (root : AggregateRoot EventType) : Aggregate EventType unit :=
  {| dynType := reflect.PtrTo "Person"; Root := root; fields := () |}.

(** Alice's first event with (empty, non-nil) metadata, and what [Save] of
    the esdb backend makes of it for the log service. *)
Definition aliceBorn : Event EventType :=
  {| AggregateID := "123"; Version_ := 1%N; GlobalVersion := 0%N;
     AggregateType := "Person"; Timestamp := 0%Z;
     Data := ptrBorn "Alice"; Metadata := Some ∅ |}.

Definition aliceBornData : esdb.EventData :=
  {| esdb.ed_ContentType := esdb.ContentTypeJson;
     esdb.ed_EventType := "Born";
     esdb.ed_Data := String.list_byte_of_string "Alice";
     esdb.ed_Metadata := Some [] |}.

(** A bbolt bucket with a stored event of the unregistered reason Died
    before one of the registered reason Born; a stored object is decoded here
    as an event of the aggregate Person whose reason is the object's text. *)
Definition decodeBolt (obj : bytes) : outcome bbolt.boltEvent :=
  Return {| bbolt.bolt_AggregateID := "123"; bbolt.bolt_Version := 1%N;
            bbolt.bolt_GlobalVersion := 1%N;
            bbolt.bolt_Reason := String.string_of_list_byte obj;
            bbolt.bolt_AggregateType := "Person";
            bbolt.bolt_Timestamp := 0%Z; bbolt.bolt_Data := [];
            bbolt.bolt_Metadata := None |}.

Definition diedBolt : bbolt.boltEvent :=
  {| bbolt.bolt_AggregateID := "123"; bbolt.bolt_Version := 1%N;
     bbolt.bolt_GlobalVersion := 1%N; bbolt.bolt_Reason := "Died";
     bbolt.bolt_AggregateType := "Person"; bbolt.bolt_Timestamp := 0%Z;
     bbolt.bolt_Data := []; bbolt.bolt_Metadata := None |}.

Definition died : N * bytes := (1%N, String.list_byte_of_string "Died").

Definition born : N * bytes := (2%N, String.list_byte_of_string "Born").

Definition boltIterator : bbolt.iterator EventType :=
  {| bbolt.tx := {[ "Person_123" := [died; born] ]};
     bbolt.bucketName := "Person_123";
     bbolt.firstEventIndex := 1%N;
     bbolt.cursor := None;
     bbolt.serializer := personSerializer;
     bbolt.Unmarshal_boltEvent := decodeBolt |}.

(** The same unregistered event as the log service and as the sql table
    hold it. *)
Definition diedRecorded : esdb.RecordedEvent :=
  {| esdb.StreamID := "Person-123"; esdb.EventNumber := 0%N;
     esdb.EventType := "Died"; esdb.re_Data := [];
     esdb.UserMetadata := None; esdb.CreatedDate := 0%Z |}.

Definition diedRow : sql.Row :=
  {| sql.row_seq := 1%N; sql.row_id := "123"; sql.row_version := 1%N;
     sql.row_reason := "Died"; sql.row_type := "Person";
     sql.row_timestamp := "2022-05-03T16:30:25Z"; sql.row_data := "";
     sql.row_metadata := "" |}.

(** A stand-in for [time.Parse] that accepts every text as instant 0. *)
Definition parseAny (layout value : string) : outcome Time := Return 0%Z.

(** A log service that is down. *)
Definition esdbDown : esdb.ESDB EventType :=
  {| esdb.AppendToStream := fun _ _ _ => Fail (errorString "unavailable");
     esdb.serializer := personSerializer;
     esdb.contentType := esdb.ContentTypeJson |}.

(** Alice's first event as the log service holds it when her id is
    [123-456]. *)
Definition dashedRecorded : esdb.RecordedEvent :=
  esdb.recorded (esdb.stream "Person" "123-456") 0%N 42%Z aliceBornData.

(** Alice's three events as rows of the sql table, and the events they are
    read as. *)
Definition bornRow : sql.Row :=
  {| sql.row_seq := 1%N; sql.row_id := "123"; sql.row_version := 1%N;
     sql.row_reason := "Born"; sql.row_type := "Person";
     sql.row_timestamp := "2022-05-03T16:30:25Z"; sql.row_data := "Alice";
     sql.row_metadata := "" |}.

Definition agedRow : sql.Row :=
  {| sql.row_seq := 3%N; sql.row_id := "123"; sql.row_version := 2%N;
     sql.row_reason := "AgedOneYear"; sql.row_type := "Person";
     sql.row_timestamp := "2023-05-03T16:30:25Z"; sql.row_data := "";
     sql.row_metadata := "" |}.

Definition bornRead : Event EventType :=
  {| AggregateID := "123"; Version_ := 1%N; GlobalVersion := 1%N;
     AggregateType := "Person"; Timestamp := 0%Z;
     Data := ptrBorn "Alice"; Metadata := None |}.

Definition agedRead : Event EventType :=
  {| AggregateID := "123"; Version_ := 2%N; GlobalVersion := 3%N;
     AggregateType := "Person"; Timestamp := 0%Z;
     Data := ptrAgedOneYear; Metadata := None |}.

(** A root with identity and no unsaved events. *)
Definition savedRoot : AggregateRoot EventType :=
  {| aggregateID := "123"; aggregateVersion := 3%N;
     aggregateGlobalVersion := 3%N; aggregateEvents := [] |}.

(** A log service without streams that commits the next batch at position 7
    and dates it 42, and the handler opened on it. *)
Definition emptyService : esdb.Service :=
  {| esdb.streams := ∅; esdb.position := 7%N; esdb.now := 42%Z |}.

Definition esdbLive : esdb.ESDB EventType :=
  esdb.Open (esdb.client emptyService) personSerializer true.

(** What [Save] makes of Alice's three events for the log service. *)
Definition aliceData : list esdb.EventData :=
  [ {| esdb.ed_ContentType := esdb.ContentTypeJson;
       esdb.ed_EventType := "Born";
       esdb.ed_Data := String.list_byte_of_string "Alice";
       esdb.ed_Metadata := None |};
    {| esdb.ed_ContentType := esdb.ContentTypeJson;
       esdb.ed_EventType := "AgedOneYear";
       esdb.ed_Data := []; esdb.ed_Metadata := None |};
    {| esdb.ed_ContentType := esdb.ContentTypeJson;
       esdb.ed_EventType := "AgedOneYear";
       esdb.ed_Data := []; esdb.ed_Metadata := None |} ].


(** A log service that commits every batch at position 7. *)
Definition esdbAt7 : esdb.ESDB EventType :=
  {| esdb.AppendToStream := fun _ _ _ =>
       Return {| esdb.CommitPosition := 7%N;
                 esdb.NextExpectedVersion := 0%N |};
     esdb.serializer := personSerializer;
     esdb.contentType := esdb.ContentTypeJson |}.

End fixtures.

(** * Properties *)

(** ** The in-memory iterator *)

Section MemoryIterator.
Context {T : Type}.
Import eventsourcing memory.
Implicit Types (i : iterator T) (es : list (Event T)).

Lemma Next_in_range es p event :
  es !! p = Some event →
  Next (mkIterator es p) = (Return event, mkIterator es (S p)).
Proof.
  intros Hp. unfold Next; simpl.
  pose proof (lookup_lt_Some _ _ _ Hp) as Hlt.
  destruct (Nat.leb_spec (length es) p) as [Hle|_]; [lia|].
  by rewrite Hp.
Qed.

Lemma Next_exhausted es p :
  length es ≤ p →
  Next (mkIterator es p) = (Fail ErrNoMoreEvents, mkIterator es p).
Proof.
  intros Hle. unfold Next; simpl.
  destruct (Nat.leb_spec (length es) p) as [_|Hlt]; [done|lia].
Qed.

(** [n] calls from position [p]: the events from [p] on, as far as they go,
    and the sentinel for every call after them. *)
Lemma nexts_from es n : ∀ p,
  (nexts n (mkIterator es p)).1
  = (Return <$> take n (drop p es))
    ++ replicate (n - (length es - p)) (Fail ErrNoMoreEvents).
Proof.
  induction n as [|n IH]; intros p; [done|].
  cbn [nexts].
  destruct (es !! p) as [event|] eqn:Hp.
  - rewrite (Next_in_range _ _ _ Hp).
    specialize (IH (S p)). destruct (nexts n _) as [rs i'] eqn:Hn.
    simpl in *. rewrite IH.
    pose proof (lookup_lt_Some _ _ _ Hp) as Hlt.
    rewrite (drop_S _ _ _ Hp). simpl.
    replace (n - (length es - S p)) with (S n - (length es - p)) by lia.
    done.
  - apply lookup_ge_None in Hp.
    rewrite (Next_exhausted _ _ Hp).
    specialize (IH p). destruct (nexts n _) as [rs i'] eqn:Hn.
    simpl in *. rewrite IH.
    rewrite (drop_ge es p Hp), !take_nil. simpl.
    replace (length es - p) with 0 by lia. rewrite !Nat.sub_0_r. done.
Qed.

End MemoryIterator.

(** ** The in-memory store *)

Section MemoryStore.
Context {T : Type}.
Import eventsourcing memory.
Implicit Types (e : Memory T) (events stored : list (Event T)).

Lemma get_loop_filter afterVersion stored :
  get_loop afterVersion stored
  = filter (fun event => (afterVersion < Version_ event)%N) stored.
Proof.
  unfold get_loop.
  enough (∀ acc,
    fold_left (fun events ev =>
                 if (afterVersion <? Version_ ev)%N then events ++ [ev]
                 else events) stored acc
    = acc ++ filter (fun event => (afterVersion < Version_ event)%N) stored)
    as Hgen by apply Hgen.
  induction stored as [|ev stored IH]; intros acc; simpl.
  - by rewrite app_nil_r.
  - rewrite IH, filter_cons.
    destruct (N.ltb_spec afterVersion (Version_ ev)); case_decide; try lia.
    + by rewrite <- app_assoc.
    + done.
Qed.

Lemma stamped_cons start event events :
  stamped start (event :: events)
  = set_GlobalVersion event (N.of_nat start + 1)%N
    :: stamped (S start) events.
Proof.
  unfold stamped. simpl. rewrite Nat.add_0_r. f_equal.
  apply imap_ext. intros k x _. simpl. do 3 f_equal. lia.
Qed.

Lemma stamped_length start events :
  length (stamped start events) = length events.
Proof. unfold stamped. by rewrite length_imap. Qed.

Lemma stamped_lookup start events k event :
  stamped start events !! k = Some event →
  ∃ event0, events !! k = Some event0
            ∧ event = set_GlobalVersion event0 (N.of_nat (start + k) + 1)%N.
Proof.
  unfold stamped. rewrite list_lookup_imap.
  destruct (events !! k) as [event0|]; simpl; [|done].
  intros [= <-]. eauto.
Qed.

Lemma stamped_fmap {A} (f : Event T → A) start events :
  (∀ event v, f (set_GlobalVersion event v) = f event) →
  f <$> stamped start events = f <$> events.
Proof.
  intros Hf. revert start.
  induction events as [|event events IH]; intros start; [done|].
  rewrite stamped_cons. simpl. by rewrite Hf, IH.
Qed.

Lemma save_loop_spec events : ∀ evBucket inOrder,
  save_loop events evBucket inOrder
  = (stamped (length inOrder) events,
     evBucket ++ stamped (length inOrder) events,
     inOrder ++ stamped (length inOrder) events).
Proof.
  induction events as [|event events IH]; intros evBucket inOrder.
  - simpl. by rewrite !app_nil_r.
  - cbn [save_loop]. rewrite IH, stamped_cons.
    rewrite length_app. simpl. rewrite Nat.add_1_r.
    by rewrite <- !app_assoc.
Qed.

Lemma numbered_app_stamped inOrder events :
  numbered GlobalVersion inOrder →
  numbered GlobalVersion (inOrder ++ stamped (length inOrder) events).
Proof.
  intros Hnum k event Hk.
  apply lookup_app_Some in Hk as [Hk|[Hge Hk]]; [by apply Hnum|].
  apply stamped_lookup in Hk as (event0 & _ & ->). simpl.
  do 2 f_equal. lia.
Qed.

End MemoryStore.

Section MemoryInvariant.
Context {T : Type}.
Import eventsourcing memory.
Implicit Types (e : Memory T) (events stored rest : list (Event T)).
Implicit Types (first event : Event T) (currentVersion version : Version).

Lemma contiguous_lookup events : ∀ version k event,
  eventstore.contiguous version events = true →
  events !! k = Some event →
  Version_ event = (version + N.of_nat k + 1)%N.
Proof.
  induction events as [|ev events IH]; intros version k event Hc Hk; [done|].
  simpl in Hc. apply andb_prop in Hc as [Hv Hc]. apply N.eqb_eq in Hv.
  destruct k as [|k]; simpl in Hk.
  - injection Hk as <-. lia.
  - rewrite (IH _ _ _ Hc Hk). lia.
Qed.

Lemma sameAggregate_lookup id typ events k event :
  eventstore.sameAggregate id typ events = true →
  events !! k = Some event →
  AggregateID event = id ∧ AggregateType event = typ.
Proof.
  unfold eventstore.sameAggregate. rewrite forallb_forall. intros Hall Hk.
  apply list_elem_of_lookup_2, list_elem_of_In, Hall in Hk.
  apply andb_prop in Hk as [Hi Ht].
  by apply String.eqb_eq in Hi, Ht.
Qed.

Lemma ValidateEvents_None id currentVersion first rest :
  eventstore.ValidateEvents id currentVersion (first :: rest) = None →
  eventstore.sameAggregate id (AggregateType first) (first :: rest) = true
  ∧ eventstore.contiguous currentVersion (first :: rest) = true.
Proof.
  unfold eventstore.ValidateEvents.
  destruct (eventstore.sameAggregate _ _ _); simpl; [|done].
  destruct (eventstore.contiguous (Version_ first) rest) eqn:Hc; simpl;
    [|done].
  destruct (N.eqb_spec (Version_ first) (currentVersion + 1)) as [Hv|];
    simpl; [|done].
  done.
Qed.

(** The current version that [Save] reads off a numbered bucket is the
    bucket's length. *)
Lemma currentVersion_numbered stored :
  numbered Version_ stored →
  match last stored with
  | Some lastEvent => Version_ lastEvent
  | None => 0%N
  end = N.of_nat (length stored).
Proof.
  intros Hnum. rewrite last_lookup.
  destruct stored as [|ev stored'] eqn:Hs using rev_ind; [done|].
  rewrite length_app; simpl.
  replace (Init.Nat.pred (length stored' + 1)) with (length stored') by lia.
  rewrite lookup_app_r, Nat.sub_diag by lia. simpl.
  rewrite (Hnum (length stored') ev); [lia|].
  rewrite lookup_app_r, Nat.sub_diag by lia. done.
Qed.

(** What a [Save] that is accepted does. *)
Lemma Save_accepted e first rest e' events' :
  Save e (first :: rest) = (None, e', events') →
  let key := keyOf first in
  events' = stamped (length (eventsInOrder e)) (first :: rest)
  ∧ eventsInOrder e' = eventsInOrder e ++ events'
  ∧ aggregateEvents e' = <[key := bucket e key ++ events']> (aggregateEvents e)
  ∧ eventstore.ValidateEvents (AggregateID first)
      match last (bucket e key) with
      | Some lastEvent => Version_ lastEvent
      | None => 0%N
      end (first :: rest) = None.
Proof.
  unfold Save, keyOf.
  destruct (eventstore.ValidateEvents _ _ _) eqn:Hv; [done|].
  rewrite save_loop_spec. intros [= <- <-]. done.
Qed.

(** A [Save] that is rejected changes neither the store nor the caller's
    events. *)
Lemma Save_rejected e events err e' events' :
  Save e events = (Some err, e', events') → e' = e ∧ events' = events.
Proof.
  unfold Save. destruct events as [|first rest]; [done|].
  destruct (eventstore.ValidateEvents _ _ _) eqn:Hv.
  - by intros [= _ <- <-].
  - by rewrite save_loop_spec.
Qed.

Lemma bucket_insert e' e key l k :
  aggregateEvents e' = <[key := l]> (aggregateEvents e) →
  bucket e' k = if decide (key = k) then l else bucket e k.
Proof.
  intros He. unfold bucket. rewrite He, lookup_insert.
  by case_decide.
Qed.

End MemoryInvariant.

Section MemoryConsistent.
Context {T : Type}.
Import eventsourcing memory.
Implicit Types (e : Memory T) (events stored rest : list (Event T)).
Implicit Types (first event : Event T) (currentVersion version : Version).

Lemma filter_all {A} (P : A → Prop) `{∀ x, Decision (P x)} (l : list A) :
  (∀ x, x ∈ l → P x) → filter P l = l.
Proof.
  induction l as [|x l IH]; intros Hall; [done|].
  rewrite filter_cons_True by (apply Hall; left).
  f_equal. apply IH. intros y Hy. apply Hall. by right.
Qed.

Lemma filter_none {A} (P : A → Prop) `{∀ x, Decision (P x)} (l : list A) :
  (∀ x, x ∈ l → ¬ P x) → filter P l = [].
Proof.
  induction l as [|x l IH]; intros Hall; [done|].
  rewrite filter_cons_False by (apply Hall; left).
  apply IH. intros y Hy. apply Hall. by right.
Qed.

Lemma filter_agree {A} (P Q : A → Prop)
    `{∀ x, Decision (P x)} `{∀ x, Decision (Q x)} (l : list A) :
  (∀ x, x ∈ l → P x ↔ Q x) → filter P l = filter Q l.
Proof.
  induction l as [|x l IH]; intros Hall; [done|].
  rewrite !filter_cons.
  assert (P x ↔ Q x) as Hx by (apply Hall; left).
  rewrite IH by (intros y Hy; apply Hall; by right).
  do 2 case_decide; tauto.
Qed.

Lemma consistent_Create : consistent (@Create T).
Proof.
  split; [|split].
  - by intros k event.
  - intros key. unfold bucket; simpl. by rewrite lookup_empty.
  - intros key k event. unfold bucket; simpl. by rewrite lookup_empty.
Qed.

(** The events an accepted batch adds are all filed under the key of the
    batch's first event. *)
Lemma stamped_keyOf start first rest event :
  eventstore.sameAggregate (AggregateID first) (AggregateType first)
                           (first :: rest) = true →
  event ∈ stamped start (first :: rest) →
  keyOf event = keyOf first.
Proof.
  intros Hsame Hin. apply list_elem_of_lookup in Hin as [k Hk].
  apply stamped_lookup in Hk as (event0 & Hk & ->).
  destruct (sameAggregate_lookup _ _ _ _ _ Hsame Hk) as [Hi Ht].
  unfold keyOf; simpl. by rewrite Hi, Ht.
Qed.

Lemma consistent_Save e events :
  consistent e → consistent (Save e events).1.2.
Proof.
  intros (Hgv & Hfile & Hver).
  destruct events as [|first rest]; [done|].
  destruct (Save e (first :: rest)) as [[[err|] e'] events'] eqn:HS; simpl.
  { apply Save_rejected in HS as [-> _]. done. }
  apply Save_accepted in HS as (Hev & Hlog & Hmap & Hval).
  apply ValidateEvents_None in Hval as [Hsame Hcont].
  rewrite (currentVersion_numbered _ (Hver _)) in Hcont.
  split; [|split].
  - rewrite Hlog, Hev. by apply numbered_app_stamped.
  - intros key. rewrite (bucket_insert _ _ _ _ key Hmap), Hlog, filter_app.
    rewrite <- Hfile. case_decide as Hkey.
    + subst key. f_equal. symmetry. apply filter_all.
      intros event Hin. rewrite Hev in Hin.
      exact (stamped_keyOf _ _ _ _ Hsame Hin).
    + rewrite filter_none; [by rewrite app_nil_r|].
      intros event Hin Hk. rewrite Hev in Hin.
      pose proof (stamped_keyOf _ _ _ _ Hsame Hin). congruence.
  - intros key. rewrite (bucket_insert _ _ _ _ key Hmap).
    case_decide as Hkey; [|apply Hver]. subst key.
    intros k event Hk.
    apply lookup_app_Some in Hk as [Hk|[Hge Hk]]; [by apply (Hver _ _ _ Hk)|].
    rewrite Hev in Hk. apply stamped_lookup in Hk as (event0 & Hk & ->).
    simpl. rewrite (contiguous_lookup _ _ _ _ Hcont Hk). lia.
Qed.

Lemma saves_snoc (batches : list (list (Event T))) batch :
  saves (batches ++ [batch]) = (Save (saves batches) batch).1.2.
Proof. unfold saves. by rewrite fold_left_app. Qed.

Lemma consistent_saves (batches : list (list (Event T))) :
  consistent (saves batches).
Proof.
  induction batches as [|batch batches IH] using rev_ind.
  - apply consistent_Create.
  - rewrite saves_snoc. by apply consistent_Save.
Qed.

Lemma numbered_ascending stored : ∀ start,
  (∀ k event, stored !! k = Some event →
              Version_ event = (start + N.of_nat k + 1)%N) →
  ascending stored.
Proof.
  induction stored as [|ev stored IH]; intros start Hnum; [constructor|].
  constructor.
  - apply (IH (start + 1)%N). intros k event Hk.
    rewrite (Hnum (S k) event Hk). lia.
  - apply Forall_forall. intros event Hin.
    apply list_elem_of_lookup in Hin as [k Hk].
    rewrite (Hnum 0 ev eq_refl), (Hnum (S k) event Hk). lia.
Qed.

Lemma ascending_filter (P : Event T → Prop) `{∀ x, Decision (P x)} stored :
  ascending stored → ascending (filter P stored).
Proof.
  induction 1 as [|ev stored Hs IH Hall]; [constructor|].
  rewrite filter_cons. case_decide; [|done].
  constructor; [done|].
  apply Forall_forall. intros event Hin.
  apply list_elem_of_filter in Hin as [_ Hin].
  rewrite Forall_forall in Hall. by apply Hall.
Qed.

End MemoryConsistent.

Section MemoryClaims.
Context {T : Type}.
Import eventsourcing memory.
Implicit Types (e : Memory T) (events stored rest : list (Event T)).
Implicit Types (first event : Event T) (i : iterator T).

(** What [Get] computes, in terms of the bucket of the queried key. *)
Lemma Get_bucket e id typ afterVersion :
  Get e id typ afterVersion
  = match filter (fun event => (afterVersion < Version_ event)%N)
                 (bucket e (aggregateKey typ id)) with
    | [] => Fail ErrNoEvents
    | matching => Return (mkIterator matching 0)
    end.
Proof.
  unfold Get. rewrite get_loop_filter.
  by destruct (filter _ _) as [|event l].
Qed.

(** C3 (as amended): an iterator that the in-memory [Get] returns holds the
    matching events; [n] calls of [Next] yield them once each, in order, as
    far as [n] reaches, and every call after the last event fails with the
    NoMoreEvents sentinel - on each such call, not once. *)
Theorem Next_yields_then_sentinel e id typ afterVersion i n :
  Get e id typ afterVersion = Return i →
  events i = filter (fun event => (afterVersion < Version_ event)%N)
                    (bucket e (aggregateKey typ id))
  ∧ (nexts n i).1
    = (Return <$> take n (events i))
      ++ replicate (n - length (events i)) (Fail ErrNoMoreEvents).
Proof.
  rewrite Get_bucket. destruct (filter _ _) as [|event l] eqn:Hm; [done|].
  intros [= <-]. simpl.
  split; [done|]. rewrite nexts_from, drop_0, Nat.sub_0_r. done.
Qed.

(** C4: after any sequence of [Save] calls on a new store, the committed
    events carry the global versions 1, 2, 3, ... in commit order, so global
    versions grow strictly with the commit position; an accepted [Save]
    appends its batch to the log with the next global versions and hands these
    to the caller; a rejected [Save] leaves the store and the caller's events
    as they were, so no global version is given before the commit. *)
Theorem GlobalVersion_consecutive (batches : list (list (Event T))) events :
  numbered GlobalVersion (eventsInOrder (saves batches))
  ∧ (∀ k1 k2 event1 event2,
       eventsInOrder (saves batches) !! k1 = Some event1 →
       eventsInOrder (saves batches) !! k2 = Some event2 →
       k1 < k2 ↔ (GlobalVersion event1 < GlobalVersion event2)%N)
  ∧ match Save (saves batches) events with
    | (None, e', events') =>
        events' = stamped (length (eventsInOrder (saves batches))) events
        ∧ eventsInOrder e' = eventsInOrder (saves batches) ++ events'
    | (Some _, e', events') => e' = saves batches ∧ events' = events
    end.
Proof.
  destruct (consistent_saves batches) as (Hgv & _ & _).
  split; [done|]. split.
  - intros k1 k2 event1 event2 H1 H2.
    rewrite (Hgv _ _ H1), (Hgv _ _ H2). lia.
  - destruct (Save (saves batches) events) as [[[err|] e'] events'] eqn:HS.
    + by apply Save_rejected in HS.
    + destruct events as [|first rest].
      * injection HS as <- <-. by rewrite app_nil_r.
      * by apply Save_accepted in HS as (? & ? & _).
Qed.

(** X17: when [Save] accepts a batch, a following [Get] with afterVersion 0
    for the id and type of the batch returns the events filed under the
    batch's key before, followed by the events of the batch: these carry the
    Data (and the Versions) of the batch as given, and the whole is in
    strictly ascending order of Version. *)
Theorem Save_Get_roundtrip (batches : list (list (Event T)))
    first rest e' events' :
  Save (saves batches) (first :: rest) = (None, e', events') →
  let before := bucket (saves batches) (keyOf first) in
  Get e' (AggregateID first) (AggregateType first) 0%N
  = Return (mkIterator (before ++ events') 0)
  ∧ Data <$> events' = Data <$> (first :: rest)
  ∧ Version_ <$> events' = Version_ <$> (first :: rest)
  ∧ ascending (before ++ events').
Proof.
  intros HS. cbv zeta.
  pose proof (consistent_Save _ (first :: rest) (consistent_saves batches))
    as (_ & _ & Hver).
  rewrite HS in Hver. simpl in Hver.
  apply Save_accepted in HS as (Hev & Hlog & Hmap & _).
  pose proof (bucket_insert _ _ _ _ (keyOf first) Hmap) as Hb.
  rewrite decide_True in Hb by done.
  specialize (Hver (keyOf first)). rewrite Hb in Hver.
  split; [|split; [|split]].
  - rewrite Get_bucket. fold (keyOf first). rewrite Hb.
    rewrite filter_all.
    + rewrite Hev, stamped_cons. by destruct (bucket _ _).
    + intros event Hin. apply list_elem_of_lookup in Hin as [k Hk].
      rewrite (Hver _ _ Hk). lia.
  - rewrite Hev. by apply stamped_fmap.
  - rewrite Hev. by apply stamped_fmap.
  - apply (numbered_ascending _ 0). intros k event Hk.
    rewrite (Hver _ _ Hk). lia.
Qed.

(** When no event of the log shares the key of [(id, typ)] without being an
    event of that aggregate, [Get] returns exactly the aggregate's events
    with a Version above [afterVersion], in ascending order of Version, and
    fails with NoEvents exactly when there is none. *)
Lemma Get_without_collision (batches : list (list (Event T)))
    id typ afterVersion :
  (∀ event, event ∈ eventsInOrder (saves batches) →
            keyOf event = aggregateKey typ id →
            AggregateID event = id ∧ AggregateType event = typ) →
  let matching :=
    filter (fun event => (afterVersion < Version_ event)%N)
           (eventsOf (saves batches) id typ) in
  Get (saves batches) id typ afterVersion
  = match matching with
    | [] => Fail ErrNoEvents
    | _ => Return (mkIterator matching 0)
    end
  ∧ ascending matching.
Proof.
  intros Hkey. cbv zeta.
  destruct (consistent_saves batches) as (_ & Hfile & Hver).
  assert (bucket (saves batches) (aggregateKey typ id)
          = eventsOf (saves batches) id typ) as Hb.
  { rewrite Hfile. unfold eventsOf. apply filter_agree.
    intros event Hin. split; [by apply Hkey|].
    intros [<- <-]. done. }
  rewrite Get_bucket, Hb. split; [by destruct (filter _ _)|].
  apply ascending_filter, (numbered_ascending _ 0).
  rewrite <- Hb. intros k event Hk. rewrite (Hver _ _ _ Hk). lia.
Qed.

End MemoryClaims.

Section MemoryExamples.
Import eventsourcing memory fixtures.

Lemma Next_yields_then_sentinel_witness :
  Get aliceStore "123" "Person" 1%N = Return aliceIterator
  ∧ events aliceIterator
    = filter (fun event => (1 < Version_ event)%N)
             (bucket aliceStore (aggregateKey "Person" "123"))
  ∧ (nexts 4 aliceIterator).1
    = (Return <$> take 4 (events aliceIterator))
      ++ replicate (4 - length (events aliceIterator)) (Fail ErrNoMoreEvents).
Proof.
  assert (Get aliceStore "123" "Person" 1%N = Return aliceIterator) as HG
    by (vm_compute; reflexivity).
  split; [exact HG|].
  exact (Next_yields_then_sentinel aliceStore "123" "Person" 1%N
                                   aliceIterator 4 HG).
Defined.

(** C3 (counterexample): the iterator that [Get] returns over Alice's two
    events after Version 1, asked four times, fails with the NoMoreEvents
    sentinel twice, not once. *)
Lemma Next_sentinel_not_once :
  Get aliceStore "123" "Person" 1%N = Return aliceIterator
  ∧ is_sentinel <$> (nexts 4 aliceIterator).1 = [false; false; true; true]
  ∧ sentinels (nexts 4 aliceIterator).1 ≠ 1.
Proof. split; [|split]; vm_compute; [reflexivity..|discriminate]. Qed.

Lemma Save_Get_roundtrip_witness :
  Save (saves []) alice = (None, aliceStore, aliceSaved)
  ∧ Get aliceStore "123" "Person" 0%N
    = Return (mkIterator (bucket (saves []) (keyOf (event "123" "Person" 1%N
                                                      (ptrBorn "Alice")))
                          ++ aliceSaved) 0)
  ∧ Data <$> aliceSaved = Data <$> alice
  ∧ Version_ <$> aliceSaved = Version_ <$> alice
  ∧ ascending (bucket (saves []) (keyOf (event "123" "Person" 1%N
                                           (ptrBorn "Alice")))
               ++ aliceSaved).
Proof.
  assert (Save (saves []) alice = (None, aliceStore, aliceSaved)) as HS
    by (vm_compute; reflexivity).
  split; [exact HS|].
  exact (Save_Get_roundtrip [] _ _ aliceStore aliceSaved HS).
Defined.

(** C6 (the defect): the keys of type [Order_Item] with id [7] and of type
    [Order] with id [Item_7] are the same string.  After one event of the
    former is saved, [Get] for the latter, which has no event in the store,
    returns that event. *)
Theorem Get_returns_foreign_event :
  aggregateKey "Order" "Item_7" = aggregateKey "Order_Item" "7"
  ∧ eventsOf collided "Item_7" "Order" = []
  ∧ ∃ event,
      Get collided "Item_7" "Order" 0%N = Return (mkIterator [event] 0)
      ∧ AggregateID event = "7" ∧ AggregateType event = "Order_Item".
Proof.
  split; [reflexivity|]. split; [vm_compute; reflexivity|].
  eexists. split; [vm_compute; reflexivity|]. split; reflexivity.
Qed.


(** C9 (the defect): in the same store no event of the aggregate of type
    [Order] with id [Item_7] is stored at all, and yet [Get] for it does not
    fail with NoEvents. *)
Theorem Get_not_NoEvents_without_events :
  Forall (fun event => ¬ (AggregateID event = "Item_7"
                          ∧ AggregateType event = "Order"))
         (eventsInOrder collided)
  ∧ Get collided "Item_7" "Order" 0%N ≠ Fail ErrNoEvents.
Proof.
  split.
  - vm_compute. repeat constructor. intros [? _]. discriminate.
  - vm_compute. discriminate.
Qed.

End MemoryExamples.

(** ** The reason of an event *)

Section ReasonOfEvent.
Context {T : Type} `{GoValue T}.
Import eventsourcing.

Lemma Reason_nil (e : Event T) :
  TypeOf (Data e) = None → Reason e = Return "".
Proof. unfold Reason. by intros ->. Qed.

Lemma Reason_pointer (e : Event T) name :
  TypeOf (Data e) = Some (reflect.PtrTo name) → Reason e = Return name.
Proof. unfold Reason. by intros ->. Qed.

Lemma Reason_no_element_type (e : Event T) name k :
  TypeOf (Data e) = Some (reflect.Basic name k) →
  Reason e = Panic ("reflect: Elem of invalid type " +:+ name).
Proof. unfold Reason. by intros ->. Qed.

End ReasonOfEvent.

Section ReasonExamples.
Import eventsourcing fixtures.

(** C10 (the defect): for an event whose Data is a [Born] struct held by
    value, [Reason] does not return: [reflect.Type.Elem] panics, as a struct
    type has no element type. *)
Theorem Reason_panics_on_struct_value :
  Reason bornByValue = Panic "reflect: Elem of invalid type Born".
Proof. reflexivity. Qed.

End ReasonExamples.

(** ** The snapshot handler *)

Section SnapshotClaims.
Context {T St : Type}.
Import eventsourcing.
Implicit Types (s : SnapshotHandler St) (i : iface T St)
               (root : AggregateRoot T).

Lemma validate_EmptyID root : ID root = "" → validate root = Some ErrEmptyID.
Proof. unfold validate. by intros ->. Qed.

Lemma validate_UnsavedEvents root :
  ID root ≠ "" → UnsavedEvents root = true →
  validate root = Some ErrUnsavedEvents.
Proof.
  unfold validate. intros Hid ->.
  destruct (String.eqb_spec (ID root) ""); [done|done].
Qed.

Lemma Save_invalid s i root err :
  rootOf i = Some root → validate root = Some err →
  SnapshotHandler_Save s i = (Fail err, []).
Proof.
  destruct i as [sa Marshal|a|]; simpl; [| |done]; intros [= <-] Hv.
  - unfold saveSnapshotAggregate. by rewrite Hv.
  - unfold saveAggregate. by rewrite Hv.
Qed.

(** C8 (as amended): for an aggregate handed to [SnapshotHandler.Save], the
    call fails with EmptyID whenever the identity is unset, also when events
    are unsaved, and fails with UnsavedEvents whenever the identity is set and
    the buffer of unsaved events is non-empty; in both cases nothing is
    handed to the snapshot store's [Save]. *)
Theorem SnapshotHandler_Save_rejects s i root :
  rootOf i = Some root →
  (ID root = "" → SnapshotHandler_Save s i = (Fail ErrEmptyID, []))
  ∧ (ID root ≠ "" → UnsavedEvents root = true →
     SnapshotHandler_Save s i = (Fail ErrUnsavedEvents, [])).
Proof.
  intros Hroot. split.
  - intros Hid. apply (Save_invalid _ _ root); [done|].
    by apply validate_EmptyID.
  - intros Hid Hun. apply (Save_invalid _ _ root); [done|].
    by apply validate_UnsavedEvents.
Qed.

End SnapshotClaims.

Section SnapshotExamples.
Import eventsourcing fixtures.

Lemma SnapshotHandler_Save_rejects_witness :
  rootOf (isAggregate (person aliceRoot)) = Some aliceRoot
  ∧ ID aliceRoot ≠ "" ∧ UnsavedEvents aliceRoot = true
  ∧ SnapshotHandler_Save handler (isAggregate (person aliceRoot))
    = (Fail ErrUnsavedEvents, []).
Proof.
  assert (ID aliceRoot ≠ "") as Hid by discriminate.
  split; [reflexivity|]. split; [exact Hid|]. split; [reflexivity|].
  exact (proj2 (SnapshotHandler_Save_rejects
                  handler (isAggregate (person aliceRoot)) aliceRoot eq_refl)
               Hid eq_refl).
Defined.

(** C8 (counterexample): an aggregate without identity that holds an unsaved
    event: its buffer is non-empty, and [Save] fails with EmptyID, not with
    UnsavedEvents. *)
Lemma SnapshotHandler_Save_EmptyID_first :
  UnsavedEvents anonymousRoot = true
  ∧ (SnapshotHandler_Save handler (isAggregate (person anonymousRoot))).1
    = Fail ErrEmptyID
  ∧ (SnapshotHandler_Save handler (isAggregate (person anonymousRoot))).1
    ≠ Fail ErrUnsavedEvents.
Proof. split; [reflexivity|]. split; [reflexivity|discriminate]. Qed.

End SnapshotExamples.

(** ** The esdb backend *)

Section EsdbClaims.
Context {T : Type} `{GoValue T}.
Import eventsourcing esdb.
Implicit Types (es : ESDB T) (event first : Event T)
               (events rest : list (Event T)).

Lemma Split_without_separator s sep :
  contains s sep = false → Split s sep = [s].
Proof.
  induction s as [|c s IH]; [done|]. simpl.
  destruct (Ascii.eqb c sep); [done|]. simpl. by intros ->%IH.
Qed.

Lemma Split_at_separator a b sep :
  contains a sep = false →
  Split (a +:+ String sep b) sep = a :: Split b sep.
Proof.
  induction a as [|c a IH]; simpl.
  - intros _. by rewrite Ascii.eqb_refl.
  - destruct (Ascii.eqb c sep); [done|]. simpl. by intros ->%IH.
Qed.

Lemma Split_stream typ id :
  contains typ streamSeparator = false →
  contains id streamSeparator = false →
  Split (stream typ id) streamSeparator = [typ; id].
Proof.
  intros Ht Hi.
  change (stream typ id) with (typ +:+ String streamSeparator id).
  by rewrite Split_at_separator, Split_without_separator.
Qed.

Lemma set_GlobalVersion_all (v : Version) events :
  Forall (fun event => GlobalVersion event = v)
         ((fun event => set_GlobalVersion event v) <$> events).
Proof. apply Forall_fmap, Forall_true. done. Qed.

(** C1 (as amended): when the esdb backend's [Save] commits a non-empty
    batch, every event of the batch is given one and the same GlobalVersion,
    the commit position that the log service answered for the whole batch;
    the other fields are left as they were. *)
Theorem esdb_Save_one_GlobalVersion es first rest events' :
  Save es (first :: rest) = (Return (), events') →
  ∃ esdbEvents wr,
    toEventData es (first :: rest) = Return esdbEvents
    ∧ AppendToStream es (stream (AggregateType first) (AggregateID first))
        (expectedRevision (Version_ first)) esdbEvents = Return wr
    ∧ events' = (fun event => set_GlobalVersion event (CommitPosition wr))
                <$> (first :: rest)
    ∧ Forall (fun event => GlobalVersion event = CommitPosition wr) events'.
Proof.
  unfold Save.
  destruct (eventstore.ValidateEventsNoVersionCheck _ _); [done|].
  destruct (toEventData es (first :: rest)) as [esdbEvents| |]; [|done..].
  destruct (AppendToStream es _ _ esdbEvents) as [wr| |] eqn:Happ; [|done..].
  intros [= <-]. exists esdbEvents, wr. split; [done|]. split; [done|].
  split; [done|].
  apply (set_GlobalVersion_all _ (first :: rest)).
Qed.

(** An accepted append under the revision that [Save] expects for a batch
    starting at [version], which is 1 or more, starts at the event number
    [version - 1]. *)
Lemma accepts_nextNumber version stored :
  (1 ≤ version)%N →
  accepts (expectedRevision version) stored = true →
  nextNumber stored = (version - 1)%N.
Proof.
  intros Hv. unfold expectedRevision, accepts, nextNumber.
  destruct (N.ltb_spec 1 version) as [Hgt|Hle].
  - destruct (last stored) as [lastEvent|]; [|done].
    intros ->%N.eqb_eq. lia.
  - destruct (N.eqb_spec version 1) as [->|]; [|lia].
    by destruct stored.
Qed.

(** The events of a batch that passed the check of the batch alone share the
    aggregate of the first one and continue its version. *)
Lemma ValidateEventsNoVersionCheck_None first rest k event :
  eventstore.ValidateEventsNoVersionCheck (AggregateID first)
                                          (first :: rest) = None →
  (first :: rest) !! k = Some event →
  AggregateID event = AggregateID first
  ∧ AggregateType event = AggregateType first
  ∧ Version_ event = (Version_ first + N.of_nat k)%N.
Proof.
  unfold eventstore.ValidateEventsNoVersionCheck.
  destruct (eventstore.sameAggregate _ _ _) eqn:Hsame; [|done].
  destruct (eventstore.contiguous _ _) eqn:Hcont; [|done].
  intros _ Hk.
  destruct (sameAggregate_lookup _ _ _ _ _ Hsame Hk) as [Hid Htyp].
  split; [done|]. split; [done|].
  destruct k as [|k]; simpl in Hk.
  - injection Hk as <-. lia.
  - rewrite (contiguous_lookup _ _ _ _ Hcont Hk). lia.
Qed.

(** C2 (as amended): an event of a batch, starting at Version 1 or above,
    that [Save] wrote to a log service honouring the expected revision, is
    read back by [Next] from what the service recorded with its AggregateID
    and AggregateType (neither contains the stream separator), with its
    Version, and with its Data and Metadata as far as the serializer decodes
    what it encoded; its Timestamp is the service's creation date, not the
    written one, and its GlobalVersion is not read back and is zero. *)
Theorem esdb_Next_reads_back sv ser jsonSerializer first rest events'
    esdbEvents k event ed stream_rest :
  Save (Open (client sv) ser jsonSerializer) (first :: rest)
  = (Return (), events') →
  toEventData (Open (client sv) ser jsonSerializer) (first :: rest)
  = Return esdbEvents →
  (first :: rest) !! k = Some event →
  esdbEvents !! k = Some ed →
  (1 ≤ Version_ first)%N →
  (Version_ event < 2 ^ 64)%N →
  contains (AggregateType first) streamSeparator = false →
  contains (AggregateID first) streamSeparator = false →
  decodes_back ser event ed →
  ∃ recordedEvent,
    records sv (stream (AggregateType first) (AggregateID first)) esdbEvents
      !! k = Some recordedEvent
    ∧ Next ser (inr recordedEvent :: stream_rest)
      = (Return {| AggregateID := AggregateID event;
                   Version_ := Version_ event;
                   GlobalVersion := 0%N;
                   AggregateType := AggregateType event;
                   Timestamp := now sv;
                   Data := Data event;
                   Metadata := Metadata event |}, stream_rest).
Proof.
  intros HS Hto Hk Hed Hv1 Hv64 Htyp Hid (f & Hf & Hdata & Hmeta).
  unfold Save in HS.
  destruct (eventstore.ValidateEventsNoVersionCheck _ _) eqn:Hval; [done|].
  rewrite Hto in HS. cbn [Open AppendToStream] in HS.
  unfold client in HS.
  destruct (accepts _ _) eqn:Hacc; [|done]. clear HS.
  apply (accepts_nextNumber _ _ Hv1) in Hacc.
  destruct (ValidateEventsNoVersionCheck_None _ _ _ _ Hval Hk)
    as (Heid & Hetyp & Hever).
  eexists. split.
  { unfold records. rewrite list_lookup_imap, Hed. reflexivity. }
  cbn [Next recorded StreamID EventType re_Data UserMetadata CreatedDate
       EventNumber].
  rewrite (Split_stream _ _ Htyp Hid).
  change ([AggregateType first; AggregateID first] !! 0)
    with (Some (AggregateType first)).
  change ([AggregateType first; AggregateID first] !! 1)
    with (Some (AggregateID first)).
  change (default "" (Some (AggregateType first)))
    with (AggregateType first).
  rewrite Hacc, <- Hetyp, Hf, Hdata. cbn [obind]. rewrite Hmeta.
  cbn [obind]. rewrite <- Heid.
  replace ((Version_ first - 1 + N.of_nat k + 1) mod 2 ^ 64)%N
    with (Version_ event); [done|].
  rewrite N.mod_small by lia. lia.
Qed.

End EsdbClaims.

Section EsdbExamples.
Import eventsourcing esdb fixtures.

Lemma esdb_Save_one_GlobalVersion_witness :
  Save esdbAt7 alice
  = (Return (), (fun event => set_GlobalVersion event 7%N) <$> alice)
  ∧ ∃ esdbEvents wr,
      toEventData esdbAt7 alice = Return esdbEvents
      ∧ AppendToStream esdbAt7 (stream "Person" "123") (expectedRevision 1%N)
                       esdbEvents = Return wr
      ∧ (fun event => set_GlobalVersion event 7%N) <$> alice
        = (fun event => set_GlobalVersion event (CommitPosition wr)) <$> alice
      ∧ Forall (fun event => GlobalVersion event = CommitPosition wr)
               ((fun event => set_GlobalVersion event 7%N) <$> alice).
Proof.
  assert (Save esdbAt7 alice
          = (Return (), (fun event => set_GlobalVersion event 7%N) <$> alice))
    as HS by reflexivity.
  split; [exact HS|].
  exact (esdb_Save_one_GlobalVersion esdbAt7 _ _ _ HS).
Defined.

(** C1 (counterexample): Alice's three events are committed as one batch at
    position 7; all three get the GlobalVersion 7, so the GlobalVersions of
    the batch are not pairwise distinct. *)
Lemma esdb_Save_GlobalVersions_coincide :
  (Save esdbAt7 alice).1 = Return ()
  ∧ GlobalVersion <$> (Save esdbAt7 alice).2 = [7; 7; 7]%N
  ∧ ¬ NoDup (GlobalVersion <$> (Save esdbAt7 alice).2).
Proof.
  split; [reflexivity|]. split; [reflexivity|].
  change (GlobalVersion <$> (Save esdbAt7 alice).2) with [7; 7; 7]%N.
  intros Hnd. apply NoDup_cons_1_1 in Hnd. apply Hnd. left.
Qed.

Lemma esdb_Next_reads_back_witness :
  Save esdbLive alice
  = (Return (), (fun event => set_GlobalVersion event 7%N) <$> alice)
  ∧ toEventData esdbLive alice = Return aliceData
  ∧ decodes_back personSerializer (event "123" "Person" 2%N ptrAgedOneYear)
      {| ed_ContentType := ContentTypeJson; ed_EventType := "AgedOneYear";
         ed_Data := []; ed_Metadata := None |}
  ∧ ∃ recordedEvent,
      records emptyService (stream "Person" "123") aliceData !! 1
      = Some recordedEvent
      ∧ Next personSerializer [inr recordedEvent]
        = (Return {| AggregateID := "123"; Version_ := 2%N;
                     GlobalVersion := 0%N; AggregateType := "Person";
                     Timestamp := 42%Z; Data := ptrAgedOneYear;
                     Metadata := None |}, []).
Proof.
  assert (decodes_back personSerializer
            (event "123" "Person" 2%N ptrAgedOneYear)
            {| ed_ContentType := ContentTypeJson;
               ed_EventType := "AgedOneYear";
               ed_Data := []; ed_Metadata := None |}) as Hdec.
  { exists (fun _ => ptrAgedOneYear). split; [reflexivity|].
    split; reflexivity. }
  split; [reflexivity|]. split; [reflexivity|]. split; [exact Hdec|].
  refine (esdb_Next_reads_back emptyService personSerializer true
            (event "123" "Person" 1%N (ptrBorn "Alice"))
            [event "123" "Person" 2%N ptrAgedOneYear;
             event "123" "Person" 3%N ptrAgedOneYear]
            ((fun event => set_GlobalVersion event 7%N) <$> alice)
            aliceData 1 (event "123" "Person" 2%N ptrAgedOneYear) _ []
            eq_refl eq_refl eq_refl eq_refl _ eq_refl eq_refl eq_refl Hdec).
  vm_compute. discriminate.
Defined.

(** C2 (counterexample): Alice's first event is written with the Timestamp 0
    and gets the GlobalVersion 7 from [Save]; the service records it with the
    creation date 42.  Read back, the event has the GlobalVersion 0 and the
    Timestamp 42. *)
Lemma esdb_GlobalVersion_not_read_back :
  Save esdbLive [aliceBorn] = (Return (), [set_GlobalVersion aliceBorn 7%N])
  ∧ toEventData esdbLive [aliceBorn] = Return [aliceBornData]
  ∧ ∃ recordedEvent event,
      records emptyService (stream "Person" "123") [aliceBornData]
      = [recordedEvent]
      ∧ (Next personSerializer [inr recordedEvent]).1 = Return event
      ∧ GlobalVersion event = 0%N
      ∧ GlobalVersion event ≠ GlobalVersion (set_GlobalVersion aliceBorn 7%N)
      ∧ Timestamp event = 42%Z
      ∧ Timestamp event ≠ Timestamp (set_GlobalVersion aliceBorn 7%N).
Proof.
  split; [reflexivity|]. split; [reflexivity|].
  eexists _, _. split; [reflexivity|]. split; [reflexivity|].
  split; [reflexivity|]. split; [discriminate|].
  split; [reflexivity|discriminate].
Qed.

End EsdbExamples.

(** ** Unregistered events on the read paths *)

Section ReadPaths.
Context {T : Type}.
Import eventsourcing.

Lemma bbolt_next_from_skips (ser : Serializer T) unmarshal k obj rest bEvent :
  unmarshal obj = Return bEvent →
  Type_ ser (bbolt.bolt_AggregateType bEvent) (bbolt.bolt_Reason bEvent)
  = None →
  bbolt.next_from ser unmarshal ((k, obj) :: rest)
  = bbolt.next_from ser unmarshal rest.
Proof. intros Hobj Htype. cbn [bbolt.next_from]. by rewrite Hobj, Htype. Qed.

Lemma sql_rows_loop_skips time_Parse (ser : Serializer T) row rest events t :
  time_Parse sql.RFC3339 (sql.row_timestamp row) = Return t →
  Type_ ser (sql.row_type row) (sql.row_reason row) = None →
  sql.rows_loop time_Parse ser (inr row :: rest) events
  = sql.rows_loop time_Parse ser rest events.
Proof. intros Ht Htype. cbn [sql.rows_loop]. by rewrite Ht, Htype. Qed.

(** C7: on each read path a stored event whose (aggregate type, reason) is
    not registered is passed over: [Next] of the bbolt iterator and [Next] of
    the esdb iterator answer what they answer from the next stored event on,
    and leave the iterator where that answer leaves it; [eventsFromRows] of
    the sql store answers what it answers without the row.  No error arises
    from the event and it is not returned. *)
Theorem unregistered_event_skipped :
  (∀ (i : bbolt.iterator T) k obj rest bEvent,
     bbolt.cursor i = Some ((k, obj) :: rest)
     ∨ (bbolt.cursor i = None
        ∧ ∃ pairs, bbolt.tx i !! bbolt.bucketName i = Some pairs
                   ∧ bbolt.Seek (bbolt.firstEventIndex i) pairs
                     = (k, obj) :: rest) →
     bbolt.Unmarshal_boltEvent i obj = Return bEvent →
     Type_ (bbolt.serializer i) (bbolt.bolt_AggregateType bEvent)
           (bbolt.bolt_Reason bEvent) = None →
     bbolt.Next i = bbolt.Next (bbolt.set_cursor i rest))
  ∧ (∀ (ser : Serializer T) eventESDB rest,
       Type_ ser
         (default "" (esdb.Split (esdb.StreamID eventESDB)
                                 esdb.streamSeparator !! 0))
         (esdb.EventType eventESDB) = None →
       esdb.Next ser (inr eventESDB :: rest) = esdb.Next ser rest)
  ∧ (∀ time_Parse (ser : Serializer T) row rest err t,
       time_Parse sql.RFC3339 (sql.row_timestamp row) = Return t →
       Type_ ser (sql.row_type row) (sql.row_reason row) = None →
       sql.eventsFromRows time_Parse ser (sql.mkRows (inr row :: rest) err)
       = sql.eventsFromRows time_Parse ser (sql.mkRows rest err)).
Proof.
  split; [|split].
  - intros i k obj rest bEvent Hcursor Hobj Htype.
    unfold bbolt.Next at 1.
    destruct Hcursor as [->|(-> & pairs & -> & ->)];
      rewrite (bbolt_next_from_skips _ _ _ _ _ _ Hobj Htype);
      unfold bbolt.Next; simpl;
      by destruct (bbolt.next_from _ _ rest).
  - intros ser eventESDB rest Htype. cbn [esdb.Next]. by rewrite Htype.
  - intros time_Parse ser row rest err t Ht Htype.
    unfold sql.eventsFromRows; simpl sql.scans.
    by rewrite (sql_rows_loop_skips _ _ _ _ _ _ Ht Htype).
Qed.

End ReadPaths.

Section ReadPathExamples.
Import eventsourcing fixtures.

Lemma unregistered_event_skipped_witness :
  bbolt.Next boltIterator = bbolt.Next (bbolt.set_cursor boltIterator [born])
  ∧ esdb.Next personSerializer [inr diedRecorded]
    = esdb.Next personSerializer []
  ∧ sql.eventsFromRows parseAny personSerializer
                       (sql.mkRows [inr diedRow] None)
    = sql.eventsFromRows parseAny personSerializer (sql.mkRows [] None).
Proof.
  destruct (@unregistered_event_skipped EventType) as (Hbolt & Hesdb & Hsql).
  split; [|split].
  - apply (Hbolt boltIterator 1%N (String.list_byte_of_string "Died") [born]
                 diedBolt).
    + right. split; [reflexivity|]. exists [died; born].
      split; reflexivity.
    + reflexivity.
    + reflexivity.
  - apply Hesdb. reflexivity.
  - apply (Hsql parseAny personSerializer diedRow [] None 0%Z); reflexivity.
Defined.

End ReadPathExamples.

(** * Further properties *)

(** ** The in-memory store: the global order, and reading by version *)

Section MemoryGlobalEvents.
Context {T : Type}.
Import eventsourcing memory.
Implicit Types (e : Memory T) (l events : list (Event T)).

Lemma uint64_dec_pos count :
  (0 < count < 2 ^ 64)%N → uint64_dec count = (count - 1)%N.
Proof.
  intros Hc. unfold uint64_dec.
  replace (count + (2 ^ 64 - 1))%N with ((count - 1) + 1 * 2 ^ 64)%N by lia.
  rewrite N.Div0.mod_add. apply N.mod_small. lia.
Qed.

(** With a count above zero the loop gathers the next [count] events from
    the position [start] on; the events left carry the global versions
    [base + 1], [base + 2], ... *)
Lemma globalEvents_loop_window start l : ∀ base count events,
  (∀ k event, l !! k = Some event →
              GlobalVersion event = (base + N.of_nat k + 1)%N) →
  (0 < count < 2 ^ 64)%N →
  globalEvents_loop start count l events
  = events ++ take (N.to_nat count) (drop (N.to_nat (start - 1 - base)) l).
Proof.
  induction l as [|a l IH]; intros base count events Hnum Hc.
  - cbn [globalEvents_loop]. by rewrite drop_nil, take_nil, app_nil_r.
  - cbn [globalEvents_loop].
    pose proof (Hnum 0 a eq_refl) as Ha.
    assert (∀ k event, l !! k = Some event →
              GlobalVersion event = (base + 1 + N.of_nat k + 1)%N) as Hl.
    { intros k event Hk. rewrite (Hnum (S k) event Hk). lia. }
    destruct (N.leb_spec start (GlobalVersion a)) as [Hs|Hs].
    + replace (N.to_nat (start - 1 - base)) with 0 by lia. rewrite drop_0.
      rewrite (uint64_dec_pos _ Hc).
      destruct (N.eqb_spec (count - 1) 0) as [H1|H1].
      * replace (N.to_nat count) with 1 by lia. done.
      * rewrite (IH (base + 1)%N) by (done || lia).
        replace (N.to_nat (start - 1 - (base + 1))) with 0 by lia.
        rewrite drop_0.
        replace (N.to_nat count) with (S (N.to_nat (count - 1))) by lia.
        rewrite firstn_cons, <- app_assoc. done.
    + rewrite (IH (base + 1)%N) by done.
      replace (N.to_nat (start - 1 - base))
        with (S (N.to_nat (start - 1 - (base + 1)))) by lia.
      done.
Qed.

(** When the count cannot reach zero within the events left - it is zero and
    wraps around, or it exceeds their number - the loop gathers every event
    from the position [start] on. *)
Lemma globalEvents_loop_all start l : ∀ base count events,
  (∀ k event, l !! k = Some event →
              GlobalVersion event = (base + N.of_nat k + 1)%N) →
  (count < 2 ^ 64)%N →
  (count = 0%N → (N.of_nat (length l) < 2 ^ 64)%N) →
  (count ≠ 0%N → (N.of_nat (length l) < count)%N) →
  globalEvents_loop start count l events
  = events ++ drop (N.to_nat (start - 1 - base)) l.
Proof.
  induction l as [|a l IH]; intros base count events Hnum Hc H0 Hpos.
  - cbn [globalEvents_loop]. by rewrite drop_nil, app_nil_r.
  - cbn [globalEvents_loop].
    pose proof (Hnum 0 a eq_refl) as Ha.
    assert (∀ k event, l !! k = Some event →
              GlobalVersion event = (base + 1 + N.of_nat k + 1)%N) as Hl.
    { intros k event Hk. rewrite (Hnum (S k) event Hk). lia. }
    cbn [length] in H0, Hpos.
    destruct (N.leb_spec start (GlobalVersion a)) as [Hs|Hs].
    + replace (N.to_nat (start - 1 - base)) with 0 by lia. rewrite drop_0.
      assert (uint64_dec count ≠ 0%N
              ∧ (uint64_dec count < 2 ^ 64)%N
              ∧ (N.of_nat (length l) < uint64_dec count)%N) as (Hd & Hd1 & Hd2).
      { destruct (N.eq_dec count 0%N) as [->|Hne].
        - specialize (H0 eq_refl).
          change (uint64_dec 0) with (2 ^ 64 - 1)%N. lia.
        - specialize (Hpos Hne). rewrite uint64_dec_pos by lia. lia. }
      destruct (N.eqb_spec (uint64_dec count) 0) as [?|_]; [done|].
      rewrite (IH (base + 1)%N) by (done || lia).
      replace (N.to_nat (start - 1 - (base + 1))) with 0 by lia.
      rewrite drop_0, <- app_assoc. done.
    + rewrite (IH (base + 1)%N) by (done || lia).
      replace (N.to_nat (start - 1 - base))
        with (S (N.to_nat (start - 1 - (base + 1)))) by lia.
      done.
Qed.

Lemma saves_numbered_from_0 (batches : list (list (Event T))) k event :
  eventsInOrder (saves batches) !! k = Some event →
  GlobalVersion event = (0 + N.of_nat k + 1)%N.
Proof.
  destruct (consistent_saves batches) as (Hgv & _ & _).
  intros Hk. rewrite (Hgv _ _ Hk). lia.
Qed.

(** X1: after any sequence of [Save] calls, [GlobalEvents start count] with a
    count above zero returns the window of the log that starts at the global
    version [start] (at the first event for [start] 0) and holds [count]
    events, or fewer when the log ends before. *)
Theorem GlobalEvents_window (batches : list (list (Event T))) start count :
  (0 < count < 2 ^ 64)%N →
  GlobalEvents (saves batches) start count
  = take (N.to_nat count)
         (drop (N.to_nat (start - 1)) (eventsInOrder (saves batches))).
Proof.
  intros Hc. unfold GlobalEvents.
  rewrite (globalEvents_loop_window _ _ 0%N) by
    (done || apply saves_numbered_from_0).
  by rewrite N.sub_0_r.
Qed.

(** X2: with the count 0 the decrement wraps around and the loop is not left
    early: [GlobalEvents start 0] returns every event of the log from the
    global version [start] on, not none (the log has fewer than 2^64
    events). *)
Theorem GlobalEvents_count_zero (batches : list (list (Event T))) start :
  (N.of_nat (length (eventsInOrder (saves batches))) < 2 ^ 64)%N →
  GlobalEvents (saves batches) start 0
  = drop (N.to_nat (start - 1)) (eventsInOrder (saves batches)).
Proof.
  intros Hlen. unfold GlobalEvents.
  rewrite (globalEvents_loop_all _ _ 0%N) by
    (done || apply saves_numbered_from_0).
  by rewrite N.sub_0_r.
Qed.

End MemoryGlobalEvents.

Section MemoryReading.
Context {T : Type}.
Import eventsourcing memory.
Implicit Types (e : Memory T) (l events rest : list (Event T))
               (first : Event T) (i : iterator T).

(** In a list that carries the versions [base + 1], [base + 2], ... the
    events with a version above [v] are those after the first [v - base]. *)
Lemma filter_above_drop l : ∀ base v,
  (∀ k event, l !! k = Some event →
              Version_ event = (base + N.of_nat k + 1)%N) →
  filter (fun event => (v < Version_ event)%N) l
  = drop (N.to_nat (v - base)) l.
Proof.
  induction l as [|a l IH]; intros base v Hnum; [by rewrite drop_nil|].
  pose proof (Hnum 0 a eq_refl) as Ha.
  assert (∀ k event, l !! k = Some event →
            Version_ event = (base + 1 + N.of_nat k + 1)%N) as Hl.
  { intros k event Hk. rewrite (Hnum (S k) event Hk). lia. }
  rewrite filter_cons, (IH (base + 1)%N) by done.
  case_decide as Hv.
  - replace (N.to_nat (v - base)) with 0 by lia.
    replace (N.to_nat (v - (base + 1))) with 0 by lia.
    by rewrite !drop_0.
  - replace (N.to_nat (v - base))
      with (S (N.to_nat (v - (base + 1)))) by lia.
    done.
Qed.

(** X3: after any sequence of [Save] calls, [Get] with [afterVersion] leaves
    out exactly the first [afterVersion] events filed under the aggregate's
    key and returns the rest in order; it fails with NoEvents exactly when
    nothing is left, be it that nothing is filed or that [afterVersion] is the
    latest version or beyond. *)
Theorem Get_drops_afterVersion (batches : list (list (Event T)))
    id typ afterVersion :
  Get (saves batches) id typ afterVersion
  = match drop (N.to_nat afterVersion)
               (bucket (saves batches) (aggregateKey typ id)) with
    | [] => Fail ErrNoEvents
    | remaining => Return (mkIterator remaining 0)
    end.
Proof.
  destruct (consistent_saves batches) as (_ & _ & Hver).
  rewrite Get_bucket, (filter_above_drop _ 0%N).
  - by rewrite N.sub_0_r.
  - intros k event Hk. rewrite (Hver _ _ _ Hk). lia.
Qed.

(** X4: a [Save] for one aggregate does not change what [Get] answers for
    an aggregate with another key, whatever the store holds and whether the
    batch is accepted or not. *)
Theorem Save_keeps_other_aggregates e first rest id typ afterVersion :
  aggregateKey typ id ≠ keyOf first →
  Get (Save e (first :: rest)).1.2 id typ afterVersion
  = Get e id typ afterVersion.
Proof.
  intros Hkey.
  destruct (Save e (first :: rest)) as [[[err|] e'] events'] eqn:HS; simpl.
  - by apply Save_rejected in HS as [-> _].
  - apply Save_accepted in HS as (_ & _ & Hmap & _).
    unfold Get. rewrite (bucket_insert _ _ _ _ _ Hmap).
    by rewrite decide_False.
Qed.

(** X5: after any sequence of [Save] calls the two structures of the store
    agree: the bucket of a key holds exactly the events of the global order
    that are filed under this key, in commit order and with the global
    versions they have there, and it carries the versions 1, 2, 3, ... *)
Theorem buckets_mirror_log (batches : list (list (Event T))) key :
  bucket (saves batches) key
  = filter (fun event => keyOf event = key) (eventsInOrder (saves batches))
  ∧ numbered Version_ (bucket (saves batches) key).
Proof.
  destruct (consistent_saves batches) as (_ & Hfile & Hver). done.
Qed.

(** X6: after [Close] every call of [Next] fails with the NoMoreEvents
    sentinel, wherever the iterator stood. *)
Theorem Close_then_Next i n :
  (nexts n (Close i)).1 = replicate n (Fail ErrNoMoreEvents).
Proof.
  unfold Close. rewrite nexts_from, drop_nil, take_nil. simpl.
  by rewrite Nat.sub_0_r.
Qed.

End MemoryReading.

Section MemoryMoreExamples.
Import eventsourcing memory fixtures.

Lemma GlobalEvents_window_witness :
  (0 < 2 < 2 ^ 64)%N
  ∧ GlobalEvents (saves [alice]) 2 2
    = take (N.to_nat 2) (drop (N.to_nat (2 - 1))
                              (eventsInOrder (saves [alice]))).
Proof.
  assert (0 < 2 < 2 ^ 64)%N as Hc by (vm_compute; split; reflexivity).
  split; [exact Hc|]. exact (GlobalEvents_window [alice] 2%N 2%N Hc).
Defined.

Lemma GlobalEvents_count_zero_witness :
  (N.of_nat (length (eventsInOrder (saves [alice]))) < 2 ^ 64)%N
  ∧ GlobalEvents (saves [alice]) 2 0
    = drop (N.to_nat (2 - 1)) (eventsInOrder (saves [alice])).
Proof.
  assert (N.of_nat (length (eventsInOrder (saves [alice]))) < 2 ^ 64)%N
    as Hlen by (vm_compute; reflexivity).
  split; [exact Hlen|]. exact (GlobalEvents_count_zero [alice] 2%N Hlen).
Defined.

Lemma Save_keeps_other_aggregates_witness :
  aggregateKey "Person" "123" ≠ keyOf orderItem
  ∧ Get (Save aliceStore [orderItem]).1.2 "123" "Person" 0%N
    = Get aliceStore "123" "Person" 0%N.
Proof.
  assert (aggregateKey "Person" "123" ≠ keyOf orderItem) as Hkey
    by (vm_compute; discriminate).
  split; [exact Hkey|].
  exact (Save_keeps_other_aggregates aliceStore orderItem [] "123" "Person"
                                     0%N Hkey).
Defined.

End MemoryMoreExamples.

(** ** The bbolt iterator *)

Section BboltIterator.
Context {T : Type}.
Import eventsourcing bbolt.
Implicit Types (i : iterator T) (pairs : list (N * bytes))
               (ser : Serializer T).

(** [next_from] answers the first result that reading the pairs gives, and
    leaves the pairs that give the further results. *)
Lemma next_from_read ser unmarshal pairs :
  match omap (read_pair ser unmarshal) pairs with
  | [] => next_from ser unmarshal pairs = (Fail ErrNoMoreEvents, [])
  | r :: rs =>
      (next_from ser unmarshal pairs).1 = r
      ∧ omap (read_pair ser unmarshal) (next_from ser unmarshal pairs).2 = rs
  end.
Proof.
  induction pairs as [|[k obj] pairs IH]; [done|].
  cbn [next_from omap list_omap]. unfold read_pair at 1. cbn [snd].
  destruct (unmarshal obj) as [bEvent|err|msg]; [|done..].
  destruct (Type_ ser _ _) as [f|]; [|exact IH].
  by destruct (Unmarshal_Data ser _ _).
Qed.

Lemma read_pair_not_sentinel ser unmarshal pair r :
  read_pair ser unmarshal pair = Some r → r ≠ Fail ErrNoMoreEvents.
Proof.
  unfold read_pair.
  destruct (unmarshal _) as [bEvent|err|msg]; [|by intros [= <-]..].
  destruct (Type_ ser _ _) as [f|]; [|done].
  by destruct (Unmarshal_Data ser _ _); intros [= <-].
Qed.

(** One call of [Next] answers the first pending result and leaves the
    others pending; with nothing pending it answers the sentinel and nothing
    is pending afterwards. *)
Lemma Next_pending i :
  match pending i with
  | [] => (Next i).1 = Fail ErrNoMoreEvents ∧ pending (Next i).2 = []
  | r :: rs => (Next i).1 = r ∧ pending (Next i).2 = rs
  end.
Proof.
  unfold pending, ahead, Next.
  destruct (cursor i) as [pairs|] eqn:Hc.
  - pose proof (next_from_read (serializer i) (Unmarshal_boltEvent i) pairs)
      as Hn.
    destruct (next_from _ _ pairs) as [r rest]. simpl in *.
    destruct (omap _ pairs) as [|r' rs]; [by injection Hn as -> ->|done].
  - destruct (tx i !! bucketName i) as [stored|] eqn:Htx; simpl.
    + pose proof (next_from_read (serializer i) (Unmarshal_boltEvent i)
                                 (Seek (firstEventIndex i) stored)) as Hn.
      destruct (next_from _ _ _) as [r rest]. simpl in *.
      destruct (omap _ _) as [|r' rs]; [by injection Hn as -> ->|done].
    + by rewrite Hc, Htx.
Qed.

(** With nothing pending, every call fails with the sentinel. *)
Lemma nexts_nothing_pending n : ∀ i,
  pending i = [] → (nexts n i).1 = replicate n (Fail ErrNoMoreEvents).
Proof.
  induction n as [|n IH]; intros i Hp; [done|].
  cbn [nexts]. pose proof (Next_pending i) as Hn. rewrite Hp in Hn.
  destruct (Next i) as [r i']. destruct Hn as [Hr Hp']. simpl in Hr, Hp'.
  specialize (IH i' Hp'). destruct (nexts n i') as [rs i''].
  simpl in *. by rewrite Hr, IH.
Qed.

(** X7: repeated calls of [Next] answer, in key order from
    [firstEventIndex] on, what reading each stored pair gives - the event, or
    the error for a pair that cannot be decoded, after which the next call
    goes on with the next pair - and leave out the pairs whose type and
    reason are not registered; every call after the last pair fails with the
    NoMoreEvents sentinel.  A transaction without the bucket is read as an
    empty one. *)
Theorem bbolt_Next_enumerates n : ∀ i,
  (nexts n i).1
  = take n (pending i)
    ++ replicate (n - length (pending i)) (Fail ErrNoMoreEvents).
Proof.
  induction n as [|n IH]; intros i; [done|].
  cbn [nexts]. pose proof (Next_pending i) as Hn.
  destruct (Next i) as [r i']. specialize (IH i').
  destruct (nexts n i') as [rs i'']. simpl in *. rewrite IH.
  destruct (pending i) as [|r' rs']; destruct Hn as [-> ->]; simpl.
  - by rewrite take_nil, Nat.sub_0_r.
  - done.
Qed.

(** X8: the sentinel is final: once [Next] has failed with NoMoreEvents,
    every later call fails with NoMoreEvents as well.  No decoding error is
    mistaken for the end: the sentinel is answered only when no pair is
    left. *)
Theorem bbolt_sentinel_is_final i n :
  (Next i).1 = Fail ErrNoMoreEvents →
  pending i = []
  ∧ (nexts n (Next i).2).1 = replicate n (Fail ErrNoMoreEvents).
Proof.
  intros Hend. pose proof (Next_pending i) as Hn.
  assert (pending i = []) as Hp.
  { destruct (pending i) as [|r rs] eqn:Hp; [done|]. destruct Hn as [Hr _].
    assert (r ∈ pending i) as Hin by (rewrite Hp; left).
    unfold pending in Hin. apply list_elem_of_omap in Hin as (pair & _ & Hrd).
    apply read_pair_not_sentinel in Hrd. congruence. }
  split; [done|]. rewrite Hp in Hn. destruct Hn as [_ Hn].
  by apply nexts_nothing_pending.
Qed.

End BboltIterator.

Section BboltExamples.
Import eventsourcing bbolt fixtures.

Lemma bbolt_sentinel_is_final_witness :
  (Next (set_cursor boltIterator [])).1 = Fail ErrNoMoreEvents
  ∧ pending (set_cursor boltIterator []) = []
  ∧ (nexts 3 (Next (set_cursor boltIterator [])).2).1
    = replicate 3 (Fail ErrNoMoreEvents).
Proof.
  split; [reflexivity|].
  exact (bbolt_sentinel_is_final (set_cursor boltIterator []) 3 eq_refl).
Defined.

End BboltExamples.

(** ** The esdb backend: what is sent, and what is read *)

Section EsdbMore.
Context {T : Type} `{GoValue T}.
Import eventsourcing esdb.
Implicit Types (es : ESDB T) (event : Event T) (events : list (Event T))
               (ser : Serializer T) (ed : EventData).

(** X9: unless the append to the log service succeeds, [Save] leaves the
    caller's events as they were: no GlobalVersion is written when the batch
    is rejected, when marshalling fails or panics, or when the service
    answers with an error. *)
Theorem esdb_Save_failure_keeps_events es events r events' :
  Save es events = (r, events') → r ≠ Return () → events' = events.
Proof.
  unfold Save. destruct events as [|first rest]; [by intros [= <- <-]|].
  destruct (eventstore.ValidateEventsNoVersionCheck _ _);
    [by intros [= <- <-]|].
  destruct (toEventData es _) as [esdbEvents| |]; [|by intros [= <- <-]..].
  destruct (AppendToStream es _ _ _) as [wr| |]; [|by intros [= <- <-]..].
  by intros [= <- <-].
Qed.

(** X10: what [Save] makes of a batch for the log service, on a handler made
    by [Open]: one [EventData] per event, in the order of the batch, whose
    type is the event's reason, whose data is the marshalled Data, whose
    metadata is nil for nil Metadata and the marshalled Metadata otherwise,
    and whose content type is JSON when the handler was opened with
    [jsonSerializer] and binary otherwise. *)
Theorem esdb_toEventData_shape client ser jsonSerializer events esdbEvents :
  toEventData (Open client ser jsonSerializer) events = Return esdbEvents →
  Forall2 (fun event ed =>
             Reason event = Return (ed_EventType ed)
             ∧ Marshal_Data ser (Data event) = Return (ed_Data ed)
             ∧ match Metadata event with
               | None => ed_Metadata ed = None
               | Some metadata =>
                   ∃ m, ed_Metadata ed = Some m
                        ∧ Marshal_Metadata ser metadata = Return m
               end
             ∧ ed_ContentType ed = (if jsonSerializer then ContentTypeJson
                                    else ContentTypeBinary))
          events esdbEvents.
Proof.
  revert esdbEvents.
  induction events as [|event events IH]; intros esdbEvents.
  - intros [= <-]. constructor.
  - cbn [toEventData]. cbn [Open serializer contentType].
    destruct (Marshal_Data ser (Data event)) as [e| |] eqn:He; [|done..].
    cbn [obind].
    destruct (Metadata event) as [metadata|] eqn:Hm.
    + destruct (Marshal_Metadata ser metadata) as [m| |] eqn:Hmm; [|done..].
      cbn [obind].
      destruct (Reason event) as [reason| |] eqn:Hr; [|done..]. cbn [obind].
      destruct (toEventData _ events) as [rest| |] eqn:Hrest; [|done..].
      cbn [obind]. intros [= <-]. constructor; [|by apply IH].
      simpl. rewrite Hm. eauto 6.
    + cbn [obind].
      destruct (Reason event) as [reason| |] eqn:Hr; [|done..]. cbn [obind].
      destruct (toEventData _ events) as [rest| |] eqn:Hrest; [|done..].
      cbn [obind]. intros [= <-]. constructor; [|by apply IH].
      simpl. by rewrite Hm.
Qed.

Lemma Split_nonempty s sep : Split s sep ≠ [].
Proof.
  destruct s as [|c s]; [done|]. simpl.
  destruct (Ascii.eqb c sep); [done|]. by destruct (Split s sep).
Qed.

(** The name of a stream that [stream] makes splits into two pieces at
    least. *)
Lemma Split_stream_two a b sep :
  ∃ x y pieces, Split (a +:+ String sep b) sep = x :: y :: pieces.
Proof.
  induction a as [|c a (x & y & pieces & IH)]; simpl.
  - rewrite Ascii.eqb_refl.
    pose proof (Split_nonempty b sep).
    destruct (Split b sep) as [|y pieces]; [done|]. eauto.
  - rewrite IH. destruct (Ascii.eqb c sep); eauto.
Qed.

(** X11: on a read stream whose events lie in streams named by [stream], as
    those that [Save] appends to are, [Next] does not panic on the index into
    the split stream name; it panics only if the serializer does. *)
Theorem esdb_Next_no_index_panic ser (s : ReadStream) msg :
  Forall named_by_stream s →
  (∀ b d m, Unmarshal_Data ser b d ≠ Panic m) →
  (∀ b m, Unmarshal_Metadata ser b ≠ Panic m) →
  (Next ser s).1 ≠ Panic msg.
Proof.
  intros Hs Hd Hm. induction Hs as [|item s Hitem _ IH]; [done|].
  destruct item as [err|eventESDB]; cbn [Next].
  - destruct (is_EOF err); [done|].
    by destruct (is_ResourceNotFound _).
  - destruct Hitem as (typ & id & ->).
    destruct (Split_stream_two typ id streamSeparator)
      as (x & y & pieces & Hsplit).
    change (stream typ id) with (typ +:+ String streamSeparator id).
    rewrite Hsplit.
    change ((x :: y :: pieces) !! 0) with (Some x).
    change ((x :: y :: pieces) !! 1) with (Some y).
    change (default "" (Some x)) with x.
    destruct (Type_ ser x _) as [f|]; [|exact IH]. cbn [fst].
    destruct (Unmarshal_Data ser _ _) as [d| |m] eqn:Hud; cbn [obind];
      [|done|by apply Hd in Hud].
    destruct (UserMetadata eventESDB) as [b|].
    + destruct (Unmarshal_Metadata ser b) as [md| |m] eqn:Hum; cbn [obind];
        [done|done|by apply Hm in Hum].
    + done.
Qed.

(** X12: the esdb iterator takes the aggregate id from the stream name by
    splitting it at every separator: an id that itself contains the
    separator, as [a-b], is read back as its part before the first
    separator, [a], not as the id. *)
Theorem esdb_Next_cuts_dashed_id ser typ a b eventESDB f d metadata rest :
  StreamID eventESDB = stream typ (a +:+ String streamSeparator b) →
  contains typ streamSeparator = false →
  contains a streamSeparator = false →
  Type_ ser typ (EventType eventESDB) = Some f →
  Unmarshal_Data ser (re_Data eventESDB) (f ()) = Return d →
  match UserMetadata eventESDB with
  | Some m => Unmarshal_Metadata ser m
  | None => Return None
  end = Return metadata →
  ∃ event, (Next ser (inr eventESDB :: rest)).1 = Return event
           ∧ AggregateID event = a ∧ AggregateType event = typ.
Proof.
  intros Hid Htyp Ha Hf Hd Hm. cbn [Next]. rewrite Hid.
  change (stream typ (a +:+ String streamSeparator b))
    with (typ +:+ String streamSeparator (a +:+ String streamSeparator b)).
  rewrite (Split_at_separator _ _ _ Htyp), (Split_at_separator _ _ _ Ha).
  set (pieces := Split b streamSeparator).
  change ((typ :: a :: pieces) !! 0) with (Some typ).
  change ((typ :: a :: pieces) !! 1) with (Some a).
  change (default "" (Some typ)) with typ.
  rewrite Hf. cbn [fst].
  rewrite Hd. cbn [obind]. rewrite Hm. cbn [obind]. eauto.
Qed.

End EsdbMore.

Section EsdbMoreExamples.
Import eventsourcing esdb fixtures.

Lemma esdb_Save_failure_keeps_events_witness :
  Save esdbDown alice = (Fail (errorString "unavailable"), alice)
  ∧ Fail (errorString "unavailable") ≠ Return ()
  ∧ alice = alice.
Proof.
  assert (Save esdbDown alice = (Fail (errorString "unavailable"), alice))
    as HS by reflexivity.
  assert (@Fail unit (errorString "unavailable") ≠ Return ()) as Hr
    by discriminate.
  split; [exact HS|]. split; [exact Hr|].
  exact (esdb_Save_failure_keeps_events esdbDown alice _ alice HS Hr).
Defined.

Lemma esdb_toEventData_shape_witness :
  toEventData (Open (AppendToStream esdbAt7) personSerializer true)
              [aliceBorn] = Return [aliceBornData]
  ∧ Forall2 (fun event ed =>
               Reason event = Return (ed_EventType ed)
               ∧ Marshal_Data personSerializer (Data event)
                 = Return (ed_Data ed)
               ∧ match Metadata event with
                 | None => ed_Metadata ed = None
                 | Some metadata =>
                     ∃ m, ed_Metadata ed = Some m
                          ∧ Marshal_Metadata personSerializer metadata
                            = Return m
                 end
               ∧ ed_ContentType ed = (if true then ContentTypeJson
                                      else ContentTypeBinary))
            [aliceBorn] [aliceBornData].
Proof.
  split; [reflexivity|].
  exact (esdb_toEventData_shape (AppendToStream esdbAt7) personSerializer
                                true [aliceBorn] [aliceBornData] eq_refl).
Defined.

Lemma esdb_Next_no_index_panic_witness :
  Forall named_by_stream
         [inr (recorded (stream "Person" "123") 0%N 42%Z aliceBornData)]
  ∧ (Next personSerializer
          [inr (recorded (stream "Person" "123") 0%N 42%Z aliceBornData)]).1
    ≠ Panic "index out of range [1] with length 1".
Proof.
  assert (Forall named_by_stream
            [inr (recorded (stream "Person" "123") 0%N 42%Z aliceBornData)])
    as Hs.
  { constructor; [|constructor]. exists "Person", "123". reflexivity. }
  split; [exact Hs|].
  apply (esdb_Next_no_index_panic personSerializer _ _ Hs).
  - intros b d m. destruct d; discriminate.
  - intros b m. discriminate.
Defined.

Lemma esdb_Next_cuts_dashed_id_witness :
  StreamID dashedRecorded = stream "Person" "123-456"
  ∧ ∃ event, (Next personSerializer [inr dashedRecorded]).1 = Return event
             ∧ AggregateID event = "123" ∧ AggregateType event = "Person".
Proof.
  split; [reflexivity|].
  exact (esdb_Next_cuts_dashed_id personSerializer "Person" "123" "456"
           dashedRecorded (fun _ => ptrBorn "") (ptrBorn "Alice") (Some ∅) []
           eq_refl eq_refl eq_refl eq_refl eq_refl eq_refl).
Defined.

End EsdbMoreExamples.

(** ** The sql backend: reading rows *)

Section SqlRows.
Context {T : Type}.
Import eventsourcing sql.
Variable time_Parse : string → string → outcome Time.
Implicit Types (ser : Serializer T) (row : Row) (events : list (Event T)).

(** One turn of the loop of [eventsFromRows] does what reading the row
    gives. *)
Lemma rows_loop_read ser scan rest events :
  rows_loop time_Parse ser (scan :: rest) events
  = match read_scan time_Parse ser scan with
    | Return None => rows_loop time_Parse ser rest events
    | Return (Some event) => rows_loop time_Parse ser rest (events ++ [event])
    | Fail err => Fail err
    | Panic msg => Panic msg
    end.
Proof.
  destruct scan as [err|row]; [done|].
  cbn [rows_loop read_scan]. unfold read_row.
  destruct (time_Parse _ _) as [t| |]; [|done..]. cbn [obind].
  destruct (Type_ ser _ _) as [f|]; [|done].
  destruct (Unmarshal_Data ser _ _) as [d| |]; [|done..]. cbn [obind].
  by destruct (if String.eqb _ _ then _ else _) as [md| |].
Qed.

Lemma rows_loop_all_read ser (scans : list (error + Row)) reads : ∀ events,
  Forall2 (fun scan read => read_scan time_Parse ser scan = Return read)
          scans reads →
  rows_loop time_Parse ser scans events = Return (events ++ omap id reads).
Proof.
  intros events Hall. revert events.
  induction Hall as [|scan read scans reads Hread _ IH]; intros events.
  - by rewrite app_nil_r.
  - rewrite rows_loop_read, Hread. destruct read as [event|]; rewrite IH.
    + by rewrite <- app_assoc.
    + done.
Qed.

(** X13: when every row can be read, [eventsFromRows] returns the events of
    the rows whose type and reason are registered, in row order, unless
    [rows.Err] reports an error, which is then returned instead.  Each event
    has the row's id, type and version, its seq as GlobalVersion, the parsed
    timestamp, the decoded data, and nil Metadata for an empty metadata
    column. *)
Theorem sql_eventsFromRows_reads ser (scans : list (error + Row)) reads err :
  Forall2 (fun scan read => read_scan time_Parse ser scan = Return read)
          scans reads →
  eventsFromRows time_Parse ser (mkRows scans err)
  = match err with
    | Some err => Fail err
    | None => Return (omap id reads)
    end.
Proof.
  intros Hall. unfold eventsFromRows. cbn [sql.scans rows_Err].
  by rewrite (rows_loop_all_read _ _ _ [] Hall).
Qed.

(** X14: the first row that cannot be read - its scan fails, its timestamp
    does not parse, or its data or metadata cannot be decoded - ends
    [eventsFromRows] with that error: the events read before it are not
    returned, the rows after it are not looked at, and [rows.Err] is not
    asked. *)
Theorem sql_eventsFromRows_first_error ser
    (before : list (error + Row)) reads scan after err rowsErr :
  Forall2 (fun scan read => read_scan time_Parse ser scan = Return read)
          before reads →
  read_scan time_Parse ser scan = Fail err →
  eventsFromRows time_Parse ser (mkRows (before ++ scan :: after) rowsErr)
  = Fail err.
Proof.
  intros Hall Hscan. unfold eventsFromRows. cbn [sql.scans rows_Err].
  enough (∀ events,
    rows_loop time_Parse ser (before ++ scan :: after) events = Fail err)
    as -> by done.
  induction Hall as [|scan0 read before reads Hread _ IH]; intros events.
  - cbn [app]. by rewrite rows_loop_read, Hscan.
  - cbn [app]. rewrite rows_loop_read, Hread. by destruct read.
Qed.

End SqlRows.

Section SqlExamples.
Import eventsourcing sql fixtures.

Lemma sql_eventsFromRows_reads_witness :
  Forall2 (fun scan read => read_scan parseAny personSerializer scan
                            = Return read)
          [inr bornRow; inr diedRow; inr agedRow]
          [Some bornRead; None; Some agedRead]
  ∧ eventsFromRows parseAny personSerializer
      (mkRows [inr bornRow; inr diedRow; inr agedRow] None)
    = Return (omap id [Some bornRead; None; Some agedRead]).
Proof.
  assert (Forall2 (fun scan read => read_scan parseAny personSerializer scan
                                    = Return read)
            [inr bornRow; inr diedRow; inr agedRow]
            [Some bornRead; None; Some agedRead]) as Hall
    by (repeat constructor).
  split; [exact Hall|].
  exact (sql_eventsFromRows_reads parseAny personSerializer _ _ None Hall).
Defined.

Lemma sql_eventsFromRows_first_error_witness :
  Forall2 (fun scan read => read_scan parseAny personSerializer scan
                            = Return read)
          [inr bornRow] [Some bornRead]
  ∧ read_scan parseAny personSerializer (inl (errorString "bad column"))
    = Fail (errorString "bad column")
  ∧ eventsFromRows parseAny personSerializer
      (mkRows ([inr bornRow] ++ inl (errorString "bad column")
                             :: [inr agedRow]) None)
    = Fail (errorString "bad column").
Proof.
  assert (Forall2 (fun scan read => read_scan parseAny personSerializer scan
                                    = Return read)
            [inr bornRow] [Some bornRead]) as Hall by (repeat constructor).
  split; [exact Hall|]. split; [reflexivity|].
  exact (sql_eventsFromRows_first_error parseAny personSerializer _ _
           (inl (errorString "bad column")) [inr agedRow] _ None
           Hall eq_refl).
Defined.

End SqlExamples.

(** ** The snapshot handler: what reaches the store *)

Section SnapshotStores.
Context {T St : Type}.
Import eventsourcing.
Implicit Types (s : SnapshotHandler St) (i : iface T St)
               (a : Aggregate T St) (root : AggregateRoot T).

Lemma validate_None root :
  validate root = None → ID root ≠ "" ∧ UnsavedEvents root = false.
Proof.
  unfold validate. destruct (String.eqb_spec (ID root) ""); [done|].
  by destruct (UnsavedEvents root).
Qed.

(** X15: for an aggregate that has an identity and no unsaved events, whose
    dynamic type is a pointer (or another type with an element type) and
    whose state can be marshalled, [Save] hands exactly one snapshot to the
    store: it carries the root's id, Version and GlobalVersion, the name of
    the element type, and the state - made by the aggregate's own Marshal
    hook if it has one, by the serializer otherwise; [Save] answers what the
    store answers. *)
Theorem SnapshotHandler_Save_stores s i a t b :
  aggregateOf i = Some a →
  validate (Root a) = None →
  reflect.Elem (dynType a) = Return t →
  marshalState s i = Return b →
  SnapshotHandler_Save s i
  = (match store_Save (snapshotStore s)
                      (snapshotOf (Root a) (reflect.Name t) b) with
     | Some err => Fail err
     | None => Return ()
     end, [snapshotOf (Root a) (reflect.Name t) b]).
Proof.
  destruct i as [sa Marshal|a'|]; cbn [aggregateOf marshalState];
    [| |done]; intros [= <-] Hv Ht Hb; cbn [SnapshotHandler_Save].
  - unfold saveSnapshotAggregate. rewrite Hv, Ht. cbn [noStore].
    by rewrite Hb.
  - unfold saveAggregate. rewrite Hv, Ht. cbn [noStore]. by rewrite Hb.
Qed.

(** X16: [Save] hands at most one snapshot to the store, and only one of an
    aggregate that has an identity and holds no unsaved events, whose type
    name was taken without a panic and whose state was marshalled: the
    snapshot carries this aggregate's id, Version and GlobalVersion, that type
    name and that state.  Nothing reaches the store for a value that is not
    an aggregate, when the aggregate is not valid, when taking the type name
    panics, or when marshalling does not return the state. *)
Theorem SnapshotHandler_Save_only_valid s i :
  (∀ snap, snap ∈ (SnapshotHandler_Save s i).2 →
     (SnapshotHandler_Save s i).2 = [snap]
     ∧ ∃ a t b, aggregateOf i = Some a
         ∧ ID (Root a) ≠ "" ∧ UnsavedEvents (Root a) = false
         ∧ reflect.Elem (dynType a) = Return t
         ∧ marshalState s i = Return b
         ∧ snap = snapshotOf (Root a) (reflect.Name t) b)
  ∧ (aggregateOf i = None → (SnapshotHandler_Save s i).2 = [])
  ∧ (∀ a, aggregateOf i = Some a →
       validate (Root a) ≠ None
       ∨ (∀ t, reflect.Elem (dynType a) ≠ Return t)
       ∨ (∀ b, marshalState s i ≠ Return b) →
       (SnapshotHandler_Save s i).2 = []).
Proof.
  destruct i as [sa Marshal|a|];
    cbn [SnapshotHandler_Save aggregateOf marshalState].
  - unfold saveSnapshotAggregate. split; [|split; [done|]].
    + intros snap.
      destruct (validate (Root sa)) as [err|] eqn:Hv;
        [by intros ?%elem_of_nil|].
      apply validate_None in Hv as [Hid Hun].
      destruct (reflect.Elem (dynType sa)) as [t| |] eqn:Ht; cbn [noStore];
        [|by intros ?%elem_of_nil..].
      destruct (Marshal (serializer_Marshal s)) as [b| |] eqn:Hb;
        cbn [noStore]; [|by intros ?%elem_of_nil..].
      unfold storeSnapshot. cbn [snd].
      intros ->%list_elem_of_singleton. split; [done|].
      by exists sa, t, b.
    + intros a0 [= <-] Hbad.
      destruct (validate (Root sa)) as [err|]; [done|].
      destruct (reflect.Elem (dynType sa)) as [t| |] eqn:Ht; cbn [noStore];
        [|done..].
      destruct (Marshal (serializer_Marshal s)) as [b| |] eqn:Hb;
        cbn [noStore]; [|done..].
      destruct Hbad as [Hbad|[Hbad|Hbad]]; [done| |].
      * by destruct (Hbad t).
      * by destruct (Hbad b).
  - unfold saveAggregate. split; [|split; [done|]].
    + intros snap.
      destruct (validate (Root a)) as [err|] eqn:Hv;
        [by intros ?%elem_of_nil|].
      apply validate_None in Hv as [Hid Hun].
      destruct (reflect.Elem (dynType a)) as [t| |] eqn:Ht; cbn [noStore];
        [|by intros ?%elem_of_nil..].
      destruct (serializer_Marshal s (fields a)) as [b| |] eqn:Hb;
        cbn [noStore]; [|by intros ?%elem_of_nil..].
      unfold storeSnapshot. cbn [snd].
      intros ->%list_elem_of_singleton. split; [done|].
      by exists a, t, b.
    + intros a0 [= <-] Hbad.
      destruct (validate (Root a)) as [err|]; [done|].
      destruct (reflect.Elem (dynType a)) as [t| |] eqn:Ht; cbn [noStore];
        [|done..].
      destruct (serializer_Marshal s (fields a)) as [b| |] eqn:Hb;
        cbn [noStore]; [|done..].
      destruct Hbad as [Hbad|[Hbad|Hbad]]; [done| |].
      * by destruct (Hbad t).
      * by destruct (Hbad b).
  - split; [by intros snap ?%elem_of_nil|]. split; [done|].
    by intros a [=].
Qed.

End SnapshotStores.

Section SnapshotStoresExamples.
Import eventsourcing fixtures.

Lemma SnapshotHandler_Save_stores_witness :
  SnapshotHandler_Save handler (isAggregate (person savedRoot))
  = (match store_Save (snapshotStore handler)
                      (snapshotOf (Root (person savedRoot))
                                  (reflect.Name (reflect.Basic "Person"
                                                   reflect.Struct)) []) with
     | Some err => Fail err
     | None => Return ()
     end,
     [snapshotOf (Root (person savedRoot))
                 (reflect.Name (reflect.Basic "Person" reflect.Struct)) []]).
Proof.
  exact (SnapshotHandler_Save_stores handler (isAggregate (person savedRoot))
           (person savedRoot) (reflect.Basic "Person" reflect.Struct) []
           eq_refl eq_refl eq_refl eq_refl).
Defined.

Lemma SnapshotHandler_Save_only_valid_witness :
  snapshotOf savedRoot "Person" []
  ∈ (SnapshotHandler_Save handler (isAggregate (person savedRoot))).2
  ∧ (SnapshotHandler_Save handler (isAggregate (person savedRoot))).2
    = [snapshotOf savedRoot "Person" []]
  ∧ (∃ a t b, aggregateOf (isAggregate (person savedRoot)) = Some a
       ∧ ID (Root a) ≠ "" ∧ UnsavedEvents (Root a) = false
       ∧ reflect.Elem (dynType a) = Return t
       ∧ marshalState handler (isAggregate (person savedRoot)) = Return b
       ∧ snapshotOf savedRoot "Person" []
         = snapshotOf (Root a) (reflect.Name t) b)
  ∧ (SnapshotHandler_Save handler (isAggregate (person anonymousRoot))).2
    = [].
Proof.
  assert (snapshotOf savedRoot "Person" []
          ∈ (SnapshotHandler_Save handler
               (isAggregate (person savedRoot))).2) as Hin
    by (simpl; left).
  split; [exact Hin|].
  destruct (proj1 (SnapshotHandler_Save_only_valid handler
                     (isAggregate (person savedRoot))) _ Hin) as [Hone Hex].
  split; [exact Hone|]. split; [exact Hex|].
  apply (proj2 (proj2 (SnapshotHandler_Save_only_valid handler
                         (isAggregate (person anonymousRoot))))
           (person anonymousRoot) eq_refl).
  left. discriminate.
Defined.

End SnapshotStoresExamples.
